(** * Jira bulk import: the conversion pipeline of [app.py]

    A shallow embedding of the three stages [preprocess],
    [dataframeprocess] and [postprocess] of the import application, and
    the properties of its specification proved (or refuted) on them.

    Modelling conventions.
    - A pandas [DataFrame] is a list of column labels and a list of rows,
      each row a list of cells aligned with the labels.  The row index is
      the position in the list: every frame the pipeline iterates over
      carries the default range index ([read_csv], [reset_index],
      [concat(..., ignore_index=True)]).
    - A cell is [None] for NaN (a missing value) and [Some v] otherwise.
    - Numbers are exact rationals ([Qc]); the rounding error of binary
      floating point is not represented, nor are infinities.
    - Python's [float] applied to a string is a parameter of the
      development ([str_to_float]); [None] stands for the [ValueError]
      it raises.
    - Exceptions are values of [Error]; every stage returns a [result]. *)

From Stdlib Require Import QArith Qcanon Qround Lqa.
From stdpp Require Import numbers countable strings gmap fin_maps list.

Local Open Scope string_scope.
Local Open Scope list_scope.

(** ** Values, cells and frames *)

Inductive value :=
| VStr (s : string)
| VNum (q : Qc)
| VInt (z : Z).

Global Instance value_eq_dec : EqDecision value.
Proof. solve_decision. Defined.

Global Instance value_countable : Countable value.
Proof.
  refine (inj_countable'
    (fun v => match v with
              | VStr s => inl s
              | VNum q => inr (inl q)
              | VInt z => inr (inr z)
              end)
    (fun x => match x with
              | inl s => VStr s
              | inr (inl q) => VNum q
              | inr (inr z) => VInt z
              end) _).
  by intros [].
Defined.

(** [None] is NaN. *)
Definition cell := option value.

Definition str (s : string) : cell := Some (VStr s).
Definition num (q : Qc) : cell := Some (VNum q).
Definition int (z : Z) : cell := Some (VInt z).
Definition NaN : cell := None.

(** [pd.notna]. *)
Definition notna (c : cell) : bool :=
  match c with Some _ => true | None => false end.

Record DataFrame := {
  columns : list string;
  rows : list (list cell)
}.

(** [row[c]]: the cell of a row under the first column labelled [c].  A
    row shorter than the header reads as NaN there, as [read_csv] pads
    it. *)
Definition col_index (cols : list string) (c : string) : option nat :=
  fst <$> list_find (fun x => x = c) cols.

Definition row_get (cols : list string) (r : list cell) (c : string) : cell :=
  match col_index cols c with
  | Some i => default None (r !! i)
  | None => None
  end.

(** [df.at[idx, c] = v] on the row at [idx], for an existing column. *)
Definition row_set (cols : list string) (r : list cell) (c : string) (v : cell)
  : list cell :=
  match col_index cols c with
  | Some i => <[i := v]> r
  | None => r
  end.

(** [df[c].values]. *)
Definition column_values (df : DataFrame) (c : string) : list cell :=
  map (fun r => row_get (columns df) r c) (rows df).

(** ** Errors *)

Inductive Error :=
| EmptyInputError
| MissingColumnError (required : list string)
| MissingSentinelError
| OrphanStoryError (index : nat)
| InvalidEstimateError (s : string)
| KeyError (k : cell)
| TypeError
| IntCastingNaNError.

Inductive result (A : Type) :=
| Ok (a : A)
| Err (e : Error).
Arguments Ok {A} a.
Arguments Err {A} e.

Global Instance result_ret : MRet result := fun A a => Ok a.

Global Instance result_bind : MBind result := fun A B f m =>
  match m with
  | Ok a => f a
  | Err e => Err e
  end.

(** ** Stage 1: [preprocess] *)

Definition placeholders : list string :=
  ["Unnamed: 3"; "Unnamed: 5"; "Unnamed: 7"].

(** [data.drop(columns=[c])]: every column labelled [c] goes, with its
    cells. *)
Definition drop_column (c : string) (df : DataFrame) : DataFrame :=
  {| columns := filter (fun x => x <> c) (columns df);
     rows := map (fun r =>
               (filter (fun p => p.1 <> c) (zip (columns df) r)).*2)
               (rows df) |}.

Definition drop_if_present (df : DataFrame) (c : string) : DataFrame :=
  if decide (c ∈ columns df) then drop_column c df else df.

(** [data.iloc[:, :n]]. *)
Definition iloc_cols (n : nat) (df : DataFrame) : DataFrame :=
  {| columns := take n (columns df); rows := map (take n) (rows df) |}.

(** [data.dropna(how="all")]: a row goes when none of its cells holds a
    value. *)
Definition dropna_all (df : DataFrame) : DataFrame :=
  {| columns := columns df;
     rows := filter (fun r => existsb notna r = true) (rows df) |}.

(** Lines 28-38: drop the first row, the placeholder columns, keep six
    columns, drop empty rows ([reset_index] renumbers the rows, which
    the positional index of the model does by itself). *)
Definition cleanup (data : DataFrame) : DataFrame :=
  let data := {| columns := columns data; rows := tail (rows data) |} in
  let data := foldl drop_if_present data placeholders in
  let data := iloc_cols 6 data in
  dropna_all data.

Definition is_END (c : cell) : Prop := c = str "END".

Definition preprocess (data : DataFrame) : result DataFrame :=
  if bool_decide (rows data = [] \/ columns data = [])
     || (length (rows data) <? 2)%nat
  then Err EmptyInputError
  else
    let data := cleanup data in
    if decide ("EPIC" ∈ columns data) then
      match list_find is_END (column_values data "EPIC") with
      | Some (end_index, _) =>
          Ok {| columns := columns data; rows := take end_index (rows data) |}
      | None => Err MissingSentinelError
      end
    else Err (MissingColumnError ["EPIC"]).

(** ** Numbers *)

(** Python's truth value of a cell value: the empty string and zero are
    false. *)
Definition truthy (v : value) : bool :=
  match v with
  | VStr s => negb (bool_decide (s = ""))
  | VNum q => negb (bool_decide (q = Q2Qc 0))
  | VInt z => negb (bool_decide (z = 0%Z))
  end.

(** [Series.round()] to zero decimals: the nearest integer, a tie going
    to the even neighbour (numpy's [around]). *)
Definition round_half_even (x : Qc) : Z :=
  let f := Qfloor x in
  match (x - Q2Qc (inject_Z f) ?= Q2Qc (1 # 2))%Qc with
  | Lt => f
  | Gt => (f + 1)%Z
  | Eq => if Z.even f then f else (f + 1)%Z
  end.

(** Python's [sum], which starts from 0 and adds from the left. *)
Definition sum (l : list Qc) : Qc := foldl Qcplus (Q2Qc 0) l.

(** ** Stage 2: [dataframeprocess] *)

Definition required_cols : list string :=
  ["EPIC"; "SUMMARY"; "IOS"; "AND"; "SERV"; "NOTES"].

(** The entries of [data_rows]: dictionaries with these seven keys. *)
Record Issue := {
  Issue_Type : cell;
  Epic_Name : cell;
  Epic_Link : cell;
  Summary : cell;
  Description : cell;
  Components : cell;
  Original_Estimate : cell
}.

(** The values of [epic_components_tracker]. *)
Record Flags := {
  Android : bool;
  iOS : bool;
  Server : bool
}.

Definition set_Android (f : Flags) : Flags :=
  {| Android := true; iOS := iOS f; Server := Server f |}.
Definition set_iOS (f : Flags) : Flags :=
  {| Android := Android f; iOS := true; Server := Server f |}.
Definition set_Server (f : Flags) : Flags :=
  {| Android := Android f; iOS := iOS f; Server := true |}.

(** The flags of a fresh tracker entry (lines 91-95). *)
Definition no_flags : Flags :=
  {| Android := false; iOS := false; Server := false |}.

(** The dictionary appended for an Epic row (lines 97-105). *)
Definition epic_record (name : value) (summary notes : cell) : Issue :=
  {| Issue_Type := str "Epic";
     Epic_Name := Some name;
     Epic_Link := str "";
     Summary := summary;
     Description := notes;
     Components := str "";
     Original_Estimate := str "" |}.

(** The dictionary appended for a platform of a Story row (lines
    119-127, 134-142, 149-157). *)
Definition story_record (link : value) (summary notes : cell)
    (component : string) (estimate : cell) : Issue :=
  {| Issue_Type := str "Story";
     Epic_Name := str "";
     Epic_Link := Some link;
     Summary := summary;
     Description := notes;
     Components := str component;
     Original_Estimate := estimate |}.

(** The loop state of [dataframeprocess]. *)
Record State := {
  current_epic_name : value;
  epic_estimates : gmap value Qc;
  epic_components_tracker : gmap value Flags;
  data_rows : list Issue
}.

Definition initial : State :=
  {| current_epic_name := VStr "";
     epic_estimates := ∅;
     epic_components_tracker := ∅;
     data_rows := [] |}.

Definition output_columns : list string :=
  ["Issue Type"; "Epic Name"; "Epic Link"; "Summary"; "Description";
   "Components"; "Original Estimate"].

Definition cells (i : Issue) : list cell :=
  [Issue_Type i; Epic_Name i; Epic_Link i; Summary i; Description i;
   Components i; Original_Estimate i].

(** [pd.concat([final_data, pd.DataFrame(data_rows)], ignore_index=True)]
    where [final_data] is the empty frame over [output_columns]. *)
Definition frame_of (data_rows : list Issue) : DataFrame :=
  {| columns := output_columns; rows := map cells data_rows |}.

(** A reader of plain decimal numerals (digits, with an optional
    fraction), used to run the pipeline on concrete tables. *)
Definition digit (a : Ascii.ascii) : option Z :=
  let n := Z.of_nat (Ascii.nat_of_ascii a) in
  if bool_decide (48 <= n <= 57)%Z then Some (n - 48)%Z else None.

Fixpoint digits (s : string) (acc : Z) (scale : positive)
    (frac : bool) (seen : bool) : option Qc :=
  match s with
  | EmptyString => if seen then Some (Q2Qc (acc # scale)) else None
  | String a s' =>
      if bool_decide (a = Ascii.ascii_of_nat 46) then
        if frac then None else digits s' acc scale true seen
      else
        match digit a with
        | Some d =>
            digits s' (10 * acc + d)%Z (if frac then (10 * scale)%positive else scale)
              frac true
        | None => None
        end
  end.

Definition decimal (s : string) : option Qc := digits s 0 1 false false.

(** ** The worked example of the specification *)

Definition raw_columns : list string :=
  ["EPIC"; "SUMMARY"; "IOS"; "Unnamed: 3"; "AND"; "Unnamed: 5"; "SERV";
   "Unnamed: 7"; "NOTES"].

Definition example_input : DataFrame :=
  {| columns := raw_columns;
     rows :=
       [ [NaN; str "As a user I need to"; str "D"; str "C"; str "D"; str "C";
          str "D"; str "C"; NaN];
         [str "E1"; str "s1"; NaN; NaN; NaN; NaN; NaN; NaN; NaN];
         [NaN; str "story1"; str "1"; NaN; NaN; NaN; str "2"; NaN; NaN];
         [str "END"; NaN; NaN; NaN; NaN; NaN; NaN; NaN; NaN] ] |}.

Definition final_columns : list string :=
  ["Issue Type"; "Epic Name"; "Epic Link"; "Summary"; "Description";
   "Components"; "Original Estimate"; "Components 1"; "Components 2"].

Definition example_output : DataFrame :=
  {| columns := final_columns;
     rows :=
       [ [str "Epic"; str "E1"; str ""; str "s1"; NaN; str "";
          int 86400; str "iOS"; str "Server"];
         [str "Story"; str ""; str "E1"; str "story1"; NaN; str "Server";
          int 57600; str "Server"; str "Server"];
         [str "Story"; str ""; str "E1"; str "story1"; NaN; str "iOS";
          int 28800; str "iOS"; str "iOS"] ] |}.

(** The column order the specification states for the finished table. *)
Definition spec_columns : list string :=
  ["Issue Type"; "Epic Name"; "Epic Link"; "Summary"; "Description";
   "Components"; "Components-1"; "Components-2"; "Original Estimate"].


Definition work_columns : list string :=
  ["EPIC"; "SUMMARY"; "IOS"; "AND"; "SERV"; "NOTES"].

(** The cleaned table of [example_input]. *)
Definition example_data : DataFrame :=
  {| columns := work_columns;
     rows :=
       [ [str "E1"; str "s1"; NaN; NaN; NaN; NaN];
         [NaN; str "story1"; str "1"; NaN; str "2"; NaN] ] |}.

(** An export whose only Story row comes before any Epic row, and has
    a Server cell that is not a number. *)
Definition orphan_input : DataFrame :=
  {| columns := raw_columns;
     rows :=
       [ [NaN; str "As a user I need to"; str "D"; str "C"; str "D"; str "C";
          str "D"; str "C"; NaN];
         [NaN; str "story0"; NaN; NaN; NaN; NaN; str "abc"; NaN; NaN];
         [str "END"; NaN; NaN; NaN; NaN; NaN; NaN; NaN; NaN] ] |}.

Definition orphan_data : DataFrame :=
  {| columns := work_columns;
     rows := [ [NaN; str "story0"; NaN; NaN; str "abc"; NaN] ] |}.




(** A first row and an END row over the six work columns. *)
Definition dummy_row : list cell :=
  [NaN; str "As a user I need to"; str "D"; str "D"; str "D"; NaN].

Definition END_row : list cell :=
  [str "END"; NaN; NaN; NaN; NaN; NaN].

Definition duplicate_epic_data : DataFrame :=
  {| columns := work_columns;
     rows :=
       [ [str "E1"; str "first"; NaN; NaN; NaN; NaN];
         [NaN; str "story1"; NaN; NaN; str "2"; NaN];
         [str "E1"; str "second"; NaN; NaN; NaN; NaN] ] |}.

(** What stage 2 returns on these tables: the records of [data_rows]
    and the two dictionaries. *)
Definition example_records : list Issue :=
  [epic_record (VStr "E1") (str "s1") NaN;
   story_record (VStr "E1") (str "story1") NaN "Server" (str "2");
   story_record (VStr "E1") (str "story1") NaN "iOS" (str "1")].

Definition example_estimates : gmap value Qc :=
  {[ VStr "E1" := Q2Qc (3 # 1) ]}.

Definition example_tracker : gmap value Flags :=
  {[ VStr "E1" := {| Android := false; iOS := true; Server := true |} ]}.




Definition duplicate_epic_records : list Issue :=
  [epic_record (VStr "E1") (str "first") NaN;
   story_record (VStr "E1") (str "story1") NaN "Server" (str "2");
   epic_record (VStr "E1") (str "second") NaN].

Definition duplicate_epic_estimates : gmap value Qc :=
  {[ VStr "E1" := Q2Qc 0 ]}.

Definition duplicate_epic_tracker : gmap value Flags :=
  {[ VStr "E1" := no_flags ]}.



Section Pipeline.

(** [float(s)] for a string [s]; [None] when it raises [ValueError]. *)
Variable str_to_float : string -> option Qc.

Definition float (v : value) : result Qc :=
  match v with
  | VStr s =>
      match str_to_float s with
      | Some q => Ok q
      | None => Err (InvalidEstimateError s)
      end
  | VNum q => Ok q
  | VInt z => Ok (Q2Qc (inject_Z z))
  end.

(** The branch of an Epic row (lines 88-106). *)
Definition epic_row (name : value) (summary notes : cell) (st : State) : State :=
  {| current_epic_name := name;
     epic_estimates := <[name := Q2Qc 0]> (epic_estimates st);
     epic_components_tracker :=
       <[name := no_flags]> (epic_components_tracker st);
     data_rows := data_rows st ++ [epic_record name summary notes] |}.

(** One of the three platform blocks of a Story row (lines 115-128,
    130-143, 145-158): when the platform's cell holds a value, set the
    flag of the current epic, append the parsed estimate to
    [story_estimates] and a Story record to [data_rows]. *)
Definition platform (est : cell) (set_flag : Flags -> Flags) (component : string)
    (summary notes : cell) (acc : State * list Qc) : result (State * list Qc) :=
  let '(st, story_estimates) := acc in
  match est with
  | None => Ok acc
  | Some v =>
      let name := current_epic_name st in
      match epic_components_tracker st !! name with
      | None => Err (KeyError (Some name))
      | Some flags =>
          x ← float v;
          Ok ({| current_epic_name := name;
                 epic_estimates := epic_estimates st;
                 epic_components_tracker :=
                   <[name := set_flag flags]> (epic_components_tracker st);
                 data_rows := data_rows st ++
                   [story_record name summary notes component est] |},
              story_estimates ++ [x])
      end
  end.

(** The branch of a Story row (lines 107-161). *)
Definition story_row (index : nat) (serv ios and summary notes : cell) (st : State)
  : result State :=
  if negb (truthy (current_epic_name st)) then Err (OrphanStoryError index)
  else
    acc ← platform serv set_Server "Server" summary notes (st, []);
    acc ← platform ios set_iOS "iOS" summary notes acc;
    '(st, story_estimates) ← platform and set_Android "Android" summary notes acc;
    let name := current_epic_name st in
    match epic_estimates st !! name with
    | None => Err (KeyError (Some name))
    | Some total =>
        Ok {| current_epic_name := name;
              epic_estimates :=
                <[name := (total + sum story_estimates)%Qc]> (epic_estimates st);
              epic_components_tracker := epic_components_tracker st;
              data_rows := data_rows st |}
    end.

(** The body of the loop over [data.iterrows()]. *)
Definition step (cols : list string) (index : nat) (row : list cell) (st : State)
  : result State :=
  let get := row_get cols row in
  match get "EPIC" with
  | Some name => Ok (epic_row name (get "SUMMARY") (get "NOTES") st)
  | None =>
      if notna (get "SUMMARY") then
        story_row index (get "SERV") (get "IOS") (get "AND")
          (get "SUMMARY") (get "NOTES") st
      else Ok st
  end.

Fixpoint iterrows (cols : list string) (index : nat) (rs : list (list cell))
    (st : State) : result State :=
  match rs with
  | [] => Ok st
  | row :: rs' => st' ← step cols index row st; iterrows cols (S index) rs' st'
  end.

Definition dataframeprocess (data : DataFrame)
  : result (DataFrame * gmap value Qc * gmap value Flags) :=
  if decide (required_cols ⊆ columns data) then
    st ← iterrows (columns data) 0 (rows data) initial;
    Ok (frame_of (data_rows st), epic_estimates st, epic_components_tracker st)
  else Err (MissingColumnError required_cols).


(** ** Stage 3: [postprocess] *)

(** [final_data[name] = vals]: an existing column is overwritten, a new
    one is added after the others. *)
Definition assign_column (name : string) (vals : list cell) (df : DataFrame)
  : DataFrame :=
  match col_index (columns df) name with
  | Some i =>
      {| columns := columns df;
         rows := zip_with (fun r v => <[i := v]> r) (rows df) vals |}
  | None =>
      {| columns := columns df ++ [name];
         rows := zip_with (fun r v => r ++ [v]) (rows df) vals |}
  end.

(** Lines 174-176: an Epic record whose name is a key of
    [epic_estimates] takes the estimate stored there. *)
Definition backfill (epic_estimates : gmap value Qc) (cols : list string)
    (row : list cell) : list cell :=
  if bool_decide (row_get cols row "Issue Type" = str "Epic") then
    match row_get cols row "Epic Name" ≫= (epic_estimates !!.) with
    | Some total => row_set cols row "Original Estimate" (num total)
    | None => row
    end
  else row.

(** Lines 179-183: the empty string becomes 0 and every estimate a
    float ([float] of NaN is NaN). *)
Definition to_float (cols : list string) (row : list cell) : result (list cell) :=
  let val := row_get cols row "Original Estimate" in
  let val := if bool_decide (val = str "") then int 0 else val in
  match val with
  | Some v => x ← float v; Ok (row_set cols row "Original Estimate" (num x))
  | None => Ok (row_set cols row "Original Estimate" NaN)
  end.

(** Lines 173-183: the table with every estimate a number of days. *)
Definition estimates_in_days (final_data : DataFrame)
    (epic_estimates : gmap value Qc) : result DataFrame :=
  let cols := columns final_data in
  rs ← mapM (to_float cols) (map (backfill epic_estimates cols) (rows final_data));
  Ok {| columns := cols; rows := rs |}.

(** [x * k] on a cell of a column of numbers. *)
Definition times (k : Z) (c : cell) : result cell :=
  match c with
  | None => Ok NaN
  | Some (VNum q) => Ok (num (q * Q2Qc (inject_Z k)))
  | Some (VInt z) => Ok (int (z * k))
  | Some (VStr _) => Err TypeError
  end.

(** [.round().astype(int)] on a cell. *)
Definition round_astype_int (c : cell) : result cell :=
  match c with
  | None => Err IntCastingNaNError
  | Some (VNum q) => Ok (int (round_half_even q))
  | Some (VInt z) => Ok (int z)
  | Some (VStr _) => Err TypeError
  end.

(** Lines 186-191: days to seconds, rounded to integers. *)
Definition to_seconds (df : DataFrame) : result DataFrame :=
  est ← mapM (times 8) (column_values df "Original Estimate");
  est ← mapM (times 3600) est;
  let df := assign_column "Original Estimate" est df in
  est ← mapM round_astype_int (column_values df "Original Estimate");
  Ok (assign_column "Original Estimate" est df).

(** Lines 194-195. *)
Definition duplicate_components (df : DataFrame) : DataFrame :=
  let df := assign_column "Components 1" (column_values df "Components") df in
  assign_column "Components 2" (column_values df "Components") df.

(** Lines 198-206: the three component columns of an Epic record are
    set from the flags of its name. *)
Definition epic_components (tracker : gmap value Flags) (cols : list string)
    (row : list cell) : result (list cell) :=
  if bool_decide (row_get cols row "Issue Type" = str "Epic") then
    let epic_name := row_get cols row "Epic Name" in
    match epic_name ≫= (tracker !!.) with
    | None => Err (KeyError epic_name)
    | Some flags =>
        let android := if Android flags then "Android" else "" in
        let ios := if iOS flags then "iOS" else "" in
        let server := if Server flags then "Server" else "" in
        let row := row_set cols row "Components" (str android) in
        let row := row_set cols row "Components 1" (str ios) in
        Ok (row_set cols row "Components 2" (str server))
    end
  else Ok row.

Definition postprocess (final_data : DataFrame) (epic_estimates : gmap value Qc)
    (epic_components_tracker : gmap value Flags) : result DataFrame :=
  df ← estimates_in_days final_data epic_estimates;
  df ← to_seconds df;
  let df := duplicate_components df in
  rs ← mapM (epic_components epic_components_tracker (columns df)) (rows df);
  Ok {| columns := columns df; rows := rs |}.

(** ** The pipeline of [preprocess_file], between [read_csv] and
    [to_csv] *)
Definition preprocess_file (raw : DataFrame) : result DataFrame :=
  data ← preprocess raw;
  '(final_data, epic_estimates, epic_components_tracker) ← dataframeprocess data;
  postprocess final_data epic_estimates epic_components_tracker.

(** ** The records of stage 2 and their final rows

    The closed form of [postprocess] on a table built from [data_rows]:
    what each record of stage 2 becomes. *)

Definition with_estimate (i : Issue) (c : cell) : Issue :=
  {| Issue_Type := Issue_Type i;
     Epic_Name := Epic_Name i;
     Epic_Link := Epic_Link i;
     Summary := Summary i;
     Description := Description i;
     Components := Components i;
     Original_Estimate := c |}.

Section Records.

Variable est : gmap value Qc.
Variable trk : gmap value Flags.

Definition is_Epic (i : Issue) : bool := bool_decide (Issue_Type i = str "Epic").

(** The estimate of a record in days, as line 183 leaves it. *)
Definition day_value (i : Issue) : option Qc :=
  match (if is_Epic i then Epic_Name i ≫= (est !!.) else None) with
  | Some total => Some total
  | None =>
      match Original_Estimate i with
      | Some v =>
          if bool_decide (v = VStr "") then Some (Q2Qc 0)
          else match float v with Ok x => Some x | Err _ => None end
      | None => None
      end
  end.

Definition days (i : Issue) : Qc := default (Q2Qc 0) (day_value i).

Definition seconds (i : Issue) : Z :=
  round_half_even (days i * Q2Qc (inject_Z 8) * Q2Qc (inject_Z 3600)).

Definition flags_of (i : Issue) : Flags :=
  default no_flags (Epic_Name i ≫= (trk !!.)).

Definition final_row (i : Issue) : list cell :=
  if is_Epic i then
    [Issue_Type i; Epic_Name i; Epic_Link i; Summary i; Description i;
     str (if Android (flags_of i) then "Android" else "");
     int (seconds i);
     str (if iOS (flags_of i) then "iOS" else "");
     str (if Server (flags_of i) then "Server" else "")]
  else
    [Issue_Type i; Epic_Name i; Epic_Link i; Summary i; Description i;
     Components i; int (seconds i); Components i; Components i].

(** The records on which [postprocess] raises nothing. *)
Definition finishable (i : Issue) : Prop :=
  is_Some (day_value i) /\
  (is_Epic i = true -> is_Some (Epic_Name i ≫= (trk !!.))).

End Records.

(** ** The records of a run

    What a Story row appends, and the records an epic name owns. *)

(** The platform cells of a Story row that hold a value, with their
    component tag, in the order of the three blocks. *)
Definition populated (serv ios and : cell) : list (string * value) :=
  omap (fun p : string * cell => (fun v => (p.1, v)) <$> p.2)
    [("Server", serv); ("iOS", ios); ("Android", and)].

Definition expand (link : value) (summary notes serv ios and : cell)
  : list Issue :=
  map (fun p : string * value => story_record link summary notes p.1 (Some p.2))
    (populated serv ios and).

Definition epic_named (n : value) (i : Issue) : Prop :=
  Issue_Type i = str "Epic" /\ Epic_Name i = Some n.

Definition story_of (n : value) (i : Issue) : Prop :=
  Issue_Type i = str "Story" /\ Epic_Link i = Some n.

Global Instance epic_named_dec n i : Decision (epic_named n i).
Proof. unfold epic_named. apply _. Defined.

Global Instance story_of_dec n i : Decision (story_of n i).
Proof. unfold story_of. apply _. Defined.

(** The records [dataframeprocess] appends: Epic records, and Story
    records whose estimate [float] accepts. *)
Inductive emitted : Issue -> Prop :=
| emitted_epic name summary notes :
    emitted (epic_record name summary notes)
| emitted_story link summary notes component v x :
    float v = Ok x ->
    emitted (story_record link summary notes component (Some v)).


(** What holds of the loop state after every row. *)
Record invariant (st : State) : Prop := {
  inv_emitted : Forall emitted (data_rows st);
  inv_estimates : forall n,
    Exists (epic_named n) (data_rows st) -> is_Some (epic_estimates st !! n);
  inv_tracker : forall n,
    Exists (epic_named n) (data_rows st) ->
    is_Some (epic_components_tracker st !! n);
  inv_current :
    truthy (current_epic_name st) = true ->
    Exists (epic_named (current_epic_name st)) (data_rows st);
  inv_linked : forall n,
    Exists (story_of n) (data_rows st) -> Exists (epic_named n) (data_rows st)
}.


(** ** The properties of the specification, on tables *)

Definition is_epic_row (cols : list string) (n : value) (r : list cell) : Prop :=
  row_get cols r "Issue Type" = str "Epic" /\ row_get cols r "Epic Name" = Some n.

Definition is_story_row (cols : list string) (n : value) (r : list cell) : Prop :=
  row_get cols r "Issue Type" = str "Story" /\ row_get cols r "Epic Link" = Some n.

Global Instance is_epic_row_dec cols n r : Decision (is_epic_row cols n r).
Proof. unfold is_epic_row. apply _. Defined.

Global Instance is_story_row_dec cols n r : Decision (is_story_row cols n r).
Proof. unfold is_story_row. apply _. Defined.

(** The estimate of a row of a table whose estimates are numbers. *)
Definition estimate_of (cols : list string) (r : list cell) : Qc :=
  match row_get cols r "Original Estimate" with
  | Some (VNum q) => q
  | _ => Q2Qc 0
  end.

(** The estimates of the Story rows linked to the epic [n]. *)
Definition story_estimates (df : DataFrame) (n : value) : list Qc :=
  map (estimate_of (columns df)) (filter (is_story_row (columns df) n) (rows df)).



(** ** Further notions used by the properties of the stages *)

(** The columns [preprocess] keeps: the first six that are not
    placeholders (lines 29-32). *)
Definition kept_columns (cols : list string) : list string :=
  take 6 (filter (fun c => c ∉ placeholders) cols).

(** The names of the Epic records of a list of records, in order, and
    of the Epic rows of a table. *)
Definition epic_names (recs : list Issue) : list value :=
  omap (fun i => if decide (Issue_Type i = str "Epic") then Epic_Name i else None)
    recs.

Definition epic_names_of (cols : list string) (rs : list (list cell))
  : list value :=
  omap (fun r => if decide (row_get cols r "Issue Type" = str "Epic")
                 then row_get cols r "Epic Name" else None) rs.

(** The three component tags. *)
Definition tags : list string := ["Server"; "iOS"; "Android"].

(** The flag of a tracker entry that goes with a component tag. *)
Definition flag_of (component : string) (f : Flags) : bool :=
  if decide (component = "Android") then Android f
  else if decide (component = "iOS") then iOS f
  else if decide (component = "Server") then Server f
  else false.

(** The estimates of Story records as [float] reads them (lines 117,
    132, 147). *)
Definition parsed (recs : list Issue) (xs : list Qc) : Prop :=
  Forall2 (fun i x => exists v, Original_Estimate i = Some v /\ float v = Ok x)
    recs xs.

(** More of what holds of the loop state after every row: the current
    epic is the last one declared, a Story record is linked to the last
    epic declared before it, the dictionaries hold epic names only, and
    a Story record carries one of the three tags. *)
Record invariant_more (st : State) : Prop := {
  inv_last :
    current_epic_name st = default (VStr "") (last (epic_names (data_rows st)));
  inv_links : forall k s,
    data_rows st !! k = Some s -> Issue_Type s = str "Story" ->
    exists link, Epic_Link s = Some link /\
                 last (epic_names (take k (data_rows st))) = Some link;
  inv_estimates_keys : forall n,
    is_Some (epic_estimates st !! n) -> Exists (epic_named n) (data_rows st);
  inv_tracker_keys : forall n,
    is_Some (epic_components_tracker st !! n) -> Exists (epic_named n) (data_rows st);
  inv_tags : Forall (fun i => Issue_Type i = str "Story" ->
                              exists c, c ∈ tags /\ Components i = str c)
               (data_rows st)
}.

(** The aggregates of a name after the last Epic record that bears it:
    the sum of the estimates of the Story records linked to it since,
    and the flags of the platforms of these records. *)
Definition aggregates (st : State) : Prop :=
  forall pre e post n,
    data_rows st = pre ++ e :: post ->
    epic_named n e ->
    Forall (fun i => ~ epic_named n i) post ->
    (exists xs, parsed (filter (story_of n) post) xs /\
                epic_estimates st !! n = Some (sum xs)) /\
    (exists f, epic_components_tracker st !! n = Some f /\
       forall c, c ∈ tags ->
         (flag_of c f = true <->
          Exists (fun i => story_of n i /\ Components i = str c) post)).

(** The number of records a row of the cleaned table gives: one for an
    Epic row, one for each platform cell with a value for a Story row,
    none for a row without epic and summary. *)
Definition emitted_count (cols : list string) (r : list cell) : nat :=
  if notna (row_get cols r "EPIC") then 1%nat
  else if notna (row_get cols r "SUMMARY") then
    length (populated (row_get cols r "SERV") (row_get cols r "IOS")
              (row_get cols r "AND"))
  else 0%nat.

(** The Epic records the Epic rows of a cleaned table give, in the
    order of the rows (lines 96-106). *)
Definition epic_records_of (cols : list string) (rs : list (list cell))
  : list Issue :=
  omap (fun r => (fun name => epic_record name (row_get cols r "SUMMARY")
                                (row_get cols r "NOTES"))
                 <$> row_get cols r "EPIC") rs.

(** The rows the loop of [dataframeprocess] does something with: those
    with an epic or a summary (lines 87 and 107). *)
Definition is_work_row (cols : list string) (r : list cell) : bool :=
  notna (row_get cols r "EPIC") || notna (row_get cols r "SUMMARY").

Definition work_rows (data : DataFrame) : DataFrame :=
  {| columns := columns data;
     rows := filter (fun r => is_work_row (columns data) r = true) (rows data) |}.

(** The columns [postprocess] never assigns. *)
Definition untouched_columns : list string :=
  ["Issue Type"; "Epic Name"; "Epic Link"; "Summary"; "Description"].

(** The Story records of a run are linked to a name that counts as a
    current epic, and have a summary. *)
Definition story_shape (i : Issue) : Prop :=
  Issue_Type i = str "Story" ->
  Epic_Name i = str "" /\
  (exists link, Epic_Link i = Some link /\ truthy link = true) /\
  notna (Summary i) = true /\
  exists c, c ∈ tags /\ Components i = str c.

(** A cleaned table with a row that has neither epic nor summary
    between the rows of [example_data]. *)
Definition notes_only_data : DataFrame :=
  {| columns := work_columns;
     rows :=
       [ [str "E1"; str "s1"; NaN; NaN; NaN; NaN];
         [NaN; NaN; str "4"; NaN; NaN; str "a note"];
         [NaN; str "story1"; str "1"; NaN; str "2"; NaN] ] |}.
(** * Proofs *)

(** ** The result monad *)

Lemma mapM_Ok_map {A B C} (f : B -> result C) (h : A -> B) (k : A -> C) (l : list A) :
  Forall (fun a => f (h a) = Ok (k a)) l ->
  mapM f (map h l) = Ok (map k l).
Proof.
  induction 1 as [|a l Ha _ IH]; [done|].
  cbn. rewrite Ha. cbn. rewrite IH. done.
Qed.

Lemma mapM_Ok {A C} (f : A -> result C) (k : A -> C) (l : list A) :
  Forall (fun a => f a = Ok (k a)) l -> mapM f l = Ok (map k l).
Proof. intros H. rewrite <- (map_id l) at 1. by apply mapM_Ok_map. Qed.

Lemma bind_Ok {A B} (m : result A) (f : A -> result B) (b : B) :
  m ≫= f = Ok b -> exists a, m = Ok a /\ f a = Ok b.
Proof. destruct m as [a|e]; [eauto|discriminate]. Qed.

(** ** Stage 3 on the records of stage 2 *)

Lemma some_str_eq (v : value) (s : string) : Some v = str s <-> v = VStr s.
Proof. unfold str. split; congruence. Qed.

Lemma to_float_backfill est (i : Issue) (x : Qc) :
  day_value est i = Some x ->
  to_float output_columns (backfill est output_columns (cells i))
  = Ok (cells (with_estimate i (num x))).
Proof.
  unfold day_value, backfill, to_float, is_Epic.
  change (row_get output_columns (cells i) "Issue Type") with (Issue_Type i).
  change (row_get output_columns (cells i) "Epic Name") with (Epic_Name i).
  assert (Hplain : forall y,
    match Original_Estimate i with
    | Some v =>
        if bool_decide (v = VStr "") then Some (Q2Qc 0)
        else match float v with Ok x => Some x | Err _ => None end
    | None => None
    end = Some y ->
    to_float output_columns (cells i) = Ok (cells (with_estimate i (num y)))).
  { intros y. unfold to_float.
    change (row_get output_columns (cells i) "Original Estimate")
      with (Original_Estimate i).
    destruct (Original_Estimate i) as [v|]; [|done].
    rewrite (bool_decide_ext _ _ (some_str_eq v "")).
    destruct (bool_decide (v = VStr "")).
    - intros [= <-]. reflexivity.
    - destruct (float v) as [z|]; [|done]. intros [= <-]. reflexivity. }
  destruct (bool_decide (Issue_Type i = str "Epic")); [|apply Hplain].
  destruct (Epic_Name i ≫= (est !!.)) as [total|]; [|apply Hplain].
  intros [= <-]. reflexivity.
Qed.

Lemma estimates_in_days_frame est (recs : list Issue) :
  Forall (fun i => is_Some (day_value est i)) recs ->
  estimates_in_days (frame_of recs) est
  = Ok (frame_of (map (fun i => with_estimate i (num (days est i))) recs)).
Proof.
  intros Hall. unfold estimates_in_days, frame_of. cbn [columns rows].
  rewrite map_map.
  rewrite (mapM_Ok_map _ _ (fun i => cells (with_estimate i (num (days est i))))).
  - cbn. by rewrite map_map.
  - apply Forall_forall. intros i Hi. rewrite Forall_forall in Hall.
    destruct (Hall i Hi) as [x Hx]. unfold days. rewrite Hx.
    by apply to_float_backfill.
Qed.

Lemma assign_estimate {A} (l : list A) (g : A -> Issue) (f : A -> cell) :
  assign_column "Original Estimate" (map f l) (frame_of (map g l))
  = frame_of (map (fun a => with_estimate (g a) (f a)) l).
Proof.
  unfold assign_column, frame_of. cbn [columns rows].
  change (col_index output_columns "Original Estimate") with (Some 6%nat).
  f_equal. induction l as [|a l IH]; [done|]. cbn. by rewrite IH.
Qed.

Lemma column_estimate (recs : list Issue) :
  column_values (frame_of recs) "Original Estimate" = map Original_Estimate recs.
Proof. unfold column_values, frame_of. cbn [columns rows]. by rewrite map_map. Qed.

Lemma column_components (recs : list Issue) :
  column_values (frame_of recs) "Components" = map Components recs.
Proof. unfold column_values, frame_of. cbn [columns rows]. by rewrite map_map. Qed.

Lemma to_seconds_frame (recs : list Issue) (d : Issue -> Qc) :
  to_seconds (frame_of (map (fun i => with_estimate i (num (d i))) recs))
  = Ok (frame_of (map (fun i => with_estimate i
           (int (round_half_even
              (d i * Q2Qc (inject_Z 8) * Q2Qc (inject_Z 3600))))) recs)).
Proof.
  unfold to_seconds. rewrite column_estimate, map_map. cbn [with_estimate Original_Estimate].
  rewrite (mapM_Ok_map _ _ (fun i => num (d i * Q2Qc (inject_Z 8))))
    by (apply Forall_forall; done).
  cbn [mbind result_bind].
  rewrite (mapM_Ok_map _ _
    (fun i => num (d i * Q2Qc (inject_Z 8) * Q2Qc (inject_Z 3600))))
    by (apply Forall_forall; done).
  cbn [mbind result_bind].
  rewrite (assign_estimate recs (fun i => with_estimate i (num (d i)))).
  rewrite column_estimate, map_map. cbn [with_estimate Original_Estimate].
  rewrite (mapM_Ok_map _ _ (fun i => int (round_half_even
     (d i * Q2Qc (inject_Z 8) * Q2Qc (inject_Z 3600)))))
    by (apply Forall_forall; done).
  cbn [mbind result_bind]. f_equal.
  exact (assign_estimate recs
    (fun a => with_estimate (with_estimate a (num (d a)))
                (num (d a * Q2Qc (inject_Z 8) * Q2Qc (inject_Z 3600))))
    (fun i => int (round_half_even
                (d i * Q2Qc (inject_Z 8) * Q2Qc (inject_Z 3600))))).
Qed.

Lemma duplicate_components_frame (recs : list Issue) :
  duplicate_components (frame_of recs)
  = {| columns := final_columns;
       rows := map (fun i => cells i ++ [Components i; Components i]) recs |}.
Proof.
  unfold duplicate_components. rewrite column_components.
  assert (H1 : assign_column "Components 1" (map Components recs) (frame_of recs)
     = {| columns := output_columns ++ ["Components 1"];
          rows := map (fun i => cells i ++ [Components i]) recs |}).
  { unfold assign_column, frame_of. cbn [columns rows].
    change (col_index output_columns "Components 1") with (@None nat).
    cbv iota. f_equal.
    induction recs as [|i recs IH]; [done|]. cbn. by rewrite IH. }
  rewrite H1. unfold column_values, assign_column. cbn [columns rows].
  change (col_index (output_columns ++ ["Components 1"]) "Components 2")
    with (@None nat).
  cbv iota. f_equal. rewrite map_map.
  clear H1. induction recs as [|i recs IH]; [done|]. cbn [map zip_with].
  rewrite IH. f_equal.
Qed.

Lemma epic_components_row est trk (i : Issue) :
  (is_Epic i = true -> is_Some (Epic_Name i ≫= (trk !!.))) ->
  epic_components trk final_columns
    (cells (with_estimate i (int (seconds est i))) ++ [Components i; Components i])
  = Ok (final_row est trk i).
Proof.
  intros Hflags. unfold epic_components, final_row, flags_of.
  change (row_get final_columns (cells (with_estimate i (int (seconds est i)))
            ++ [Components i; Components i]) "Issue Type") with (Issue_Type i).
  change (row_get final_columns (cells (with_estimate i (int (seconds est i)))
            ++ [Components i; Components i]) "Epic Name") with (Epic_Name i).
  fold (is_Epic i). destruct (is_Epic i); [|done].
  destruct Hflags as [flags ->]; [done|]. reflexivity.
Qed.

Lemma postprocess_frame est trk (recs : list Issue) :
  Forall (finishable est trk) recs ->
  postprocess (frame_of recs) est trk
  = Ok {| columns := final_columns; rows := map (final_row est trk) recs |}.
Proof.
  intros Hall. unfold postprocess.
  rewrite estimates_in_days_frame
    by (eapply List.Forall_impl; [|exact Hall]; by intros i [? _]).
  cbn [mbind result_bind]. rewrite to_seconds_frame. cbn [mbind result_bind].
  rewrite (duplicate_components_frame
    (map (fun i => with_estimate i (int _)) recs)).
  cbn [columns rows]. rewrite map_map.
  rewrite (mapM_Ok_map _ _ (final_row est trk)); [done|].
  eapply List.Forall_impl; [|exact Hall]. intros i [_ Hi]. cbv beta.
  exact (epic_components_row est trk i Hi).
Qed.

(** ** Stage 2: one row *)

Lemma platform_Ok (c : cell) set_flag component summary notes st xs st' xs' :
  platform c set_flag component summary notes (st, xs) = Ok (st', xs') ->
  let name := current_epic_name st in
  current_epic_name st' = name /\
  epic_estimates st' = epic_estimates st /\
  data_rows st' = data_rows st ++
    map (fun v => story_record name summary notes component (Some v)) (option_list c) /\
  (forall n, is_Some (epic_components_tracker st' !! n)
             <-> is_Some (epic_components_tracker st !! n)) /\
  (forall n, n <> name ->
     epic_components_tracker st' !! n = epic_components_tracker st !! n) /\
  exists ys, Forall2 (fun v x => float v = Ok x) (option_list c) ys /\ xs' = xs ++ ys.
Proof.
  unfold platform. destruct c as [v|]; cbn [option_list map].
  - destruct (epic_components_tracker st !! current_epic_name st) as [flags|] eqn:Hf;
      [|discriminate].
    destruct (float v) as [x|] eqn:Hx; [|discriminate].
    cbn. intros [= <- <-]. cbn.
    do 3 (split; [done|]). split; [|split].
    + intros n. destruct (decide (current_epic_name st = n)) as [<-|Hne].
      * rewrite lookup_insert_eq, Hf. split; eauto.
      * by rewrite lookup_insert_ne.
    + intros n Hne. by rewrite lookup_insert_ne.
    + exists [x]. split; [|done]. by repeat constructor.
  - intros [= <- <-]. rewrite app_nil_r.
    do 5 (split; [done|]).
    exists []. split; [constructor|by rewrite app_nil_r].
Qed.

Lemma sum_app (l k : list Qc) : sum (l ++ k) = (sum l + sum k)%Qc.
Proof.
  unfold sum. rewrite foldl_app. generalize (foldl Qcplus (Q2Qc 0) l) as a.
  induction k as [|x k IH] using rev_ind; intros a; cbn.
  - ring.
  - rewrite !foldl_app. cbn. rewrite IH. ring.
Qed.

Lemma sum_cons (x : Qc) (l : list Qc) : sum (x :: l) = (x + sum l)%Qc.
Proof. change (x :: l) with ([x] ++ l). rewrite sum_app. unfold sum at 1. cbn. ring. Qed.

Lemma story_row_Ok index serv ios and summary notes st st' :
  story_row index serv ios and summary notes st = Ok st' ->
  let name := current_epic_name st in
  truthy name = true /\
  current_epic_name st' = name /\
  data_rows st' = data_rows st ++ expand name summary notes serv ios and /\
  (forall n, is_Some (epic_components_tracker st' !! n)
             <-> is_Some (epic_components_tracker st !! n)) /\
  (forall n, n <> name ->
     epic_components_tracker st' !! n = epic_components_tracker st !! n) /\
  exists total xs,
    epic_estimates st !! name = Some total /\
    Forall2 (fun p x => float p.2 = Ok x) (populated serv ios and) xs /\
    epic_estimates st' = <[name := (total + sum xs)%Qc]> (epic_estimates st).
Proof.
  unfold story_row. destruct (truthy (current_epic_name st)) eqn:Ht; [|discriminate].
  cbn [negb]. intros H.
  apply bind_Ok in H as [[st1 xs1] [H1 H]].
  apply bind_Ok in H as [[st2 xs2] [H2 H]].
  apply bind_Ok in H as [[st3 xs3] [H3 H]].
  apply platform_Ok in H1 as (Hc1 & He1 & Hd1 & Hk1 & Ho1 & ys1 & Hy1 & ->).
  apply platform_Ok in H2 as (Hc2 & He2 & Hd2 & Hk2 & Ho2 & ys2 & Hy2 & ->).
  apply platform_Ok in H3 as (Hc3 & He3 & Hd3 & Hk3 & Ho3 & ys3 & Hy3 & ->).
  destruct (epic_estimates st3 !! current_epic_name st3) as [total|] eqn:Htot;
    [|discriminate].
  injection H as <-. cbn [current_epic_name data_rows epic_estimates
    epic_components_tracker].
  rewrite Hc3, Hc2, Hc1 in *. rewrite He3, He2, He1 in *.
  split; [done|]. split; [done|]. split.
  { rewrite Hd3, Hd2, Hd1, <- !app_assoc. f_equal.
    by destruct serv, ios, and. }
  split. { intros n. by rewrite Hk3, Hk2, Hk1. }
  split. { intros n Hn. by rewrite Ho3, Ho2, Ho1. }
  exists total, (ys1 ++ ys2 ++ ys3). split; [done|].
  split; [|by rewrite <- app_assoc].
  clear -Hy1 Hy2 Hy3.
  destruct serv, ios, and; cbn in *;
    repeat match goal with
    | H : Forall2 _ [] _ |- _ => apply Forall2_nil_inv_l in H as ->
    | H : Forall2 _ [_] _ |- _ =>
        apply Forall2_cons_inv_l in H as (? & ? & ? & H & ->)
    end; cbn; repeat constructor; done.
Qed.

(** ** Stage 2: the loop invariant *)

Lemma epic_named_epic_record n name summary notes :
  epic_named n (epic_record name summary notes) <-> n = name.
Proof. unfold epic_named. cbn. split; [by intros [_ [= ->]]|by intros ->]. Qed.

Lemma not_epic_named_story n link summary notes component c :
  ~ epic_named n (story_record link summary notes component c).
Proof. by intros [[=] _]. Qed.

Lemma not_story_of_epic n name summary notes :
  ~ story_of n (epic_record name summary notes).
Proof. by intros [[=] _]. Qed.

Lemma story_of_story_record n link summary notes component c :
  story_of n (story_record link summary notes component c) <-> n = link.
Proof. unfold story_of. cbn. split; [by intros [_ [= ->]]|by intros ->]. Qed.

Lemma Exists_epic_named_expand n link summary notes serv ios and :
  ~ Exists (epic_named n) (expand link summary notes serv ios and).
Proof.
  unfold expand. rewrite Exists_exists. intros (i & Hi & Hn).
  apply list_elem_of_fmap in Hi as (p & -> & _).
  by apply not_epic_named_story in Hn.
Qed.

Lemma Exists_story_of_expand n link summary notes serv ios and :
  Exists (story_of n) (expand link summary notes serv ios and) -> n = link.
Proof.
  unfold expand. rewrite Exists_exists. intros (i & Hi & Hn).
  apply list_elem_of_fmap in Hi as (p & -> & _).
  by apply story_of_story_record in Hn.
Qed.

Lemma invariant_initial : invariant initial.
Proof.
  split; cbn.
  - constructor.
  - intros n H. by apply Exists_nil in H.
  - intros n H. by apply Exists_nil in H.
  - done.
  - intros n H. by apply Exists_nil in H.
Qed.

Lemma invariant_epic_row name summary notes st :
  invariant st -> invariant (epic_row name summary notes st).
Proof.
  intros [He Hes Htr Hcur Hln]. split; cbn.
  - apply Forall_app. split; [done|]. repeat constructor.
  - intros n. rewrite Exists_app, Exists_cons, Exists_nil, epic_named_epic_record.
    intros [H|[->|[]]].
    + destruct (decide (name = n)) as [->|Hne];
        [rewrite lookup_insert_eq; eauto|rewrite lookup_insert_ne; auto].
    + rewrite lookup_insert_eq; eauto.
  - intros n. rewrite Exists_app, Exists_cons, Exists_nil, epic_named_epic_record.
    intros [H|[->|[]]].
    + destruct (decide (name = n)) as [->|Hne];
        [rewrite lookup_insert_eq; eauto|rewrite lookup_insert_ne; auto].
    + rewrite lookup_insert_eq; eauto.
  - intros _. apply Exists_app. right. constructor. by apply epic_named_epic_record.
  - intros n. rewrite !Exists_app, !Exists_cons, !Exists_nil.
    intros [H|[H|[]]]; [left; auto|by apply not_story_of_epic in H].
Qed.

Lemma invariant_story_row index serv ios and summary notes st st' :
  invariant st ->
  story_row index serv ios and summary notes st = Ok st' ->
  invariant st'.
Proof.
  intros [He Hes Htr Hcur Hln] H.
  apply story_row_Ok in H as (Ht & Hc & Hd & Hk & _ & total & xs & Htot & Hxs & Hest).
  split; rewrite ?Hd, ?Hc, ?Hest.
  - apply Forall_app. split; [done|]. unfold expand.
    apply Forall_fmap. apply Forall_forall. intros [c v] Hp. cbn.
    apply list_elem_of_lookup_1 in Hp as [k Hk'].
    destruct (Forall2_lookup_l _ _ _ _ _ Hxs Hk') as (x & _ & Hx).
    by econstructor.
  - intros n. rewrite Exists_app. intros [H|H];
      [|by apply Exists_epic_named_expand in H].
    destruct (decide (current_epic_name st = n)) as [->|Hne];
      [rewrite lookup_insert_eq; eauto|rewrite lookup_insert_ne; auto].
  - intros n. rewrite Exists_app. intros [H|H];
      [|by apply Exists_epic_named_expand in H].
    apply Hk. auto.
  - intros _. apply Exists_app. left. auto.
  - intros n. rewrite !Exists_app. intros [H|H]; [left; auto|].
    apply Exists_story_of_expand in H as ->. left. auto.
Qed.

Lemma step_Ok cols index row st st' :
  step cols index row st = Ok st' ->
  let get := row_get cols row in
  (exists name, get "EPIC" = Some name /\
     st' = epic_row name (get "SUMMARY") (get "NOTES") st) \/
  (get "EPIC" = None /\ notna (get "SUMMARY") = true /\
     story_row index (get "SERV") (get "IOS") (get "AND")
       (get "SUMMARY") (get "NOTES") st = Ok st') \/
  (get "EPIC" = None /\ get "SUMMARY" = None /\ st' = st).
Proof.
  unfold step. destruct (row_get cols row "EPIC") as [name|].
  - intros [= <-]. left. eauto.
  - destruct (row_get cols row "SUMMARY") as [s|]; cbn [notna].
    + intros H. right. left. done.
    + intros [= <-]. right. right. done.
Qed.

Lemma invariant_step cols index row st st' :
  invariant st -> step cols index row st = Ok st' -> invariant st'.
Proof.
  intros Hinv H. apply step_Ok in H as [(name & _ & ->)|[(_ & _ & H)|(_ & _ & ->)]].
  - by apply invariant_epic_row.
  - by eapply invariant_story_row.
  - done.
Qed.

Lemma invariant_iterrows cols rs : forall index st st',
  invariant st -> iterrows cols index rs st = Ok st' -> invariant st'.
Proof.
  induction rs as [|row rs IH]; intros index st st' Hinv; cbn.
  - by intros [= <-].
  - intros H. apply bind_Ok in H as (st1 & H1 & H).
    eapply IH; [|exact H]. by eapply invariant_step.
Qed.

(** ** Stage 2: the sums *)

Lemma count_Exists {A} (P : A -> Prop) `{!forall x, Decision (P x)} (l : list A) :
  Exists P l <-> (0 < length (filter P l))%nat.
Proof.
  induction l as [|x l IH].
  - cbn. split; [by intros ?%Exists_nil|lia].
  - rewrite Exists_cons, filter_cons. destruct (decide (P x)); cbn.
    + split; [lia|auto].
    + rewrite IH. split; [by intros [?|?]|auto].
Qed.


Lemma filter_none {A} (P : A -> Prop) `{!forall x, Decision (P x)} (l : list A) :
  ~ Exists P l -> filter P l = [].
Proof.
  intros Hn. apply length_zero_iff_nil.
  pose proof (proj2 (count_Exists P l)). destruct (length (filter P l)); [done|].
  exfalso. apply Hn. auto with lia.
Qed.

Lemma filter_all {A} (P : A -> Prop) `{!forall x, Decision (P x)} (l : list A) :
  Forall P l -> filter P l = l.
Proof.
  induction 1 as [|x l Hx _ IH]; [done|].
  rewrite filter_cons, decide_True by done. by rewrite IH.
Qed.



Section Sums.

(** Python's [float] rejects the empty string. *)
Hypothesis float_empty : str_to_float "" = None.







End Sums.

(** ** Stage 2 as a whole, and stage 3 after it *)

Lemma dataframeprocess_Ok data fd est trk :
  dataframeprocess data = Ok (fd, est, trk) ->
  required_cols ⊆ columns data /\
  exists st,
    iterrows (columns data) 0 (rows data) initial = Ok st /\
    invariant st /\
    fd = frame_of (data_rows st) /\
    est = epic_estimates st /\
    trk = epic_components_tracker st.
Proof.
  unfold dataframeprocess. destruct (decide (required_cols ⊆ columns data)); [|done].
  intros H. apply bind_Ok in H as (st & Hst & [= <- <- <-]).
  split; [done|]. exists st. split; [done|]. split; [|done].
  eapply invariant_iterrows; [apply invariant_initial|exact Hst].
Qed.

Lemma finishable_emitted st i :
  invariant st -> i ∈ data_rows st ->
  finishable (epic_estimates st) (epic_components_tracker st) i.
Proof.
  intros Hinv Hi.
  pose proof (proj1 (Forall_forall _ _) (inv_emitted _ Hinv) i Hi) as He.
  destruct He as [name summary notes|link summary notes component v x Hx].
  - assert (Hex : Exists (epic_named name) (data_rows st)).
    { apply Exists_exists. eexists. split; [exact Hi|]. by apply epic_named_epic_record. }
    destruct (inv_estimates _ Hinv _ Hex) as [total Htot].
    split.
    + unfold day_value. cbn. rewrite Htot. eauto.
    + intros _. cbn. by apply (inv_tracker _ Hinv).
  - split; [|done]. unfold day_value. cbn.
    destruct (bool_decide (v = VStr "")); [eauto|]. rewrite Hx. eauto.
Qed.

Lemma finishable_run st :
  invariant st ->
  Forall (finishable (epic_estimates st) (epic_components_tracker st)) (data_rows st).
Proof. intros Hinv. apply Forall_forall. intros i Hi. by apply finishable_emitted. Qed.

Lemma postprocess_run st :
  invariant st ->
  postprocess (frame_of (data_rows st)) (epic_estimates st)
    (epic_components_tracker st)
  = Ok {| columns := final_columns;
          rows := map (final_row (epic_estimates st) (epic_components_tracker st))
                    (data_rows st) |}.
Proof. intros Hinv. by apply postprocess_frame, finishable_run. Qed.

Lemma estimates_in_days_run st :
  invariant st ->
  estimates_in_days (frame_of (data_rows st)) (epic_estimates st)
  = Ok (frame_of (map (fun i => with_estimate i (num (days (epic_estimates st) i)))
                    (data_rows st))).
Proof.
  intros Hinv. apply estimates_in_days_frame.
  eapply List.Forall_impl; [|by apply finishable_run]. by intros i [? _].
Qed.

Lemma postprocess_total data fd est trk :
  dataframeprocess data = Ok (fd, est, trk) ->
  exists recs,
    fd = frame_of recs /\
    Forall emitted recs /\
    estimates_in_days fd est
    = Ok (frame_of (map (fun i => with_estimate i (num (days est i))) recs)) /\
    postprocess fd est trk
    = Ok {| columns := final_columns; rows := map (final_row est trk) recs |}.
Proof.
  intros (_ & st & _ & Hinv & -> & -> & ->)%dataframeprocess_Ok.
  exists (data_rows st). split; [done|]. split; [by apply inv_emitted|]. split.
  - by apply estimates_in_days_run.
  - by apply postprocess_run.
Qed.

(** ** Rounding *)


(** ** The finished table *)

Lemma final_row_cells est trk (i : Issue) :
  row_get final_columns (final_row est trk i) "Issue Type" = Issue_Type i /\
  row_get final_columns (final_row est trk i) "Epic Name" = Epic_Name i /\
  row_get final_columns (final_row est trk i) "Epic Link" = Epic_Link i /\
  row_get final_columns (final_row est trk i) "Original Estimate"
    = int (seconds est i) /\
  length (final_row est trk i) = 9%nat.
Proof. unfold final_row. by destruct (is_Epic i). Qed.



(** C3, as amended: the finished table has nine columns, the estimate
    seventh, before the two copies of the component. *)
Theorem final_table_columns (raw out : DataFrame) :
  preprocess_file raw = Ok out ->
  columns out = final_columns /\
  length (columns out) = 9%nat /\
  Forall (fun r => length r = 9%nat) (rows out).
Proof.
  unfold preprocess_file. intros H.
  apply bind_Ok in H as (data & _ & H).
  apply bind_Ok in H as ([[fd est] trk] & Hd & H).
  apply postprocess_total in Hd as (recs & -> & _ & _ & Hp).
  cbv beta iota in H. rewrite Hp in H. injection H as <-.
  cbn [columns rows]. split; [done|]. split; [done|].
  apply Forall_fmap, Forall_forall. intros i _. apply final_row_cells.
Qed.


(** ** Runs in pieces *)

Lemma iterrows_app cols l1 : forall l2 index st,
  iterrows cols index (l1 ++ l2) st
  = iterrows cols index l1 st ≫= iterrows cols (index + length l1) l2.
Proof.
  induction l1 as [|row l1 IH]; intros l2 index st; cbn.
  - by rewrite Nat.add_0_r.
  - destruct (step cols index row st) as [st1|e]; cbn; [|done].
    rewrite IH. by rewrite <- Nat.add_succ_comm.
Qed.


Lemma step_prefix cols index row st st' :
  step cols index row st = Ok st' -> data_rows st `prefix_of` data_rows st'.
Proof.
  intros [(name & _ & ->)|[(_ & _ & H)|(_ & _ & ->)]]%step_Ok.
  - by eexists.
  - apply story_row_Ok in H as (_ & _ & -> & _). by eexists.
  - done.
Qed.

Lemma iterrows_prefix cols rs : forall index st st',
  iterrows cols index rs st = Ok st' -> data_rows st `prefix_of` data_rows st'.
Proof.
  induction rs as [|row rs IH]; intros index st st'; cbn.
  - by intros [= <-].
  - intros (st1 & H1 & H)%bind_Ok. etrans; [by eapply step_prefix|by eapply IH].
Qed.



(** ** The sum property *)

Lemma filter_map_comm {A B} (P : B -> Prop) (Q : A -> Prop)
    `{!forall x, Decision (P x)} `{!forall x, Decision (Q x)}
    (f : A -> B) (l : list A) :
  (forall a, P (f a) <-> Q a) ->
  filter P (map f l) = map f (filter Q l).
Proof.
  intros HPQ. induction l as [|a l IH]; [done|]. cbn [map].
  rewrite !filter_cons. destruct (decide (P (f a))) as [Hp|Hp].
  - rewrite decide_True by (by apply HPQ). cbn [map]. by rewrite IH.
  - rewrite decide_False by (by rewrite <- HPQ). done.
Qed.




Section SumProperty.

Hypothesis float_empty : str_to_float "" = None.


End SumProperty.

(** ** Story rows *)

Lemma step_story cols index row st :
  row_get cols row "EPIC" = None ->
  notna (row_get cols row "SUMMARY") = true ->
  step cols index row st
  = story_row index (row_get cols row "SERV") (row_get cols row "IOS")
      (row_get cols row "AND") (row_get cols row "SUMMARY")
      (row_get cols row "NOTES") st.
Proof. intros He Hs. unfold step. by rewrite He, Hs. Qed.


Lemma orphan_iterrows cols row post : forall pre index st,
  truthy (current_epic_name st) = false ->
  Forall (fun r => row_get cols r "EPIC" = None) pre ->
  row_get cols row "EPIC" = None ->
  notna (row_get cols row "SUMMARY") = true ->
  exists k r,
    (k <= length pre)%nat /\
    (pre ++ row :: post) !! k = Some r /\
    row_get cols r "EPIC" = None /\
    notna (row_get cols r "SUMMARY") = true /\
    (forall j r', (j < k)%nat -> (pre ++ row :: post) !! j = Some r' ->
       row_get cols r' "SUMMARY" = None) /\
    iterrows cols index (pre ++ row :: post) st
    = Err (OrphanStoryError (index + k)).
Proof.
  induction pre as [|r0 pre IH]; intros index st Hcur Hpre Hepic Hsum.
  - exists 0%nat, row. split; [done|]. split; [done|]. split; [done|].
    split; [done|]. split; [intros; lia|].
    cbn. rewrite step_story by done. unfold story_row. rewrite Hcur. cbn.
    by rewrite Nat.add_0_r.
  - apply Forall_cons in Hpre as [Hr0 Hpre].
    destruct (row_get cols r0 "SUMMARY") as [s|] eqn:Hs0.
    + exists 0%nat, r0. split; [cbn; lia|]. split; [done|]. split; [done|].
      split; [by rewrite Hs0|]. split; [intros; lia|].
      cbn. rewrite step_story by (by rewrite ?Hs0). unfold story_row.
      rewrite Hcur. cbn. by rewrite Nat.add_0_r.
    + destruct (IH (S index) st Hcur Hpre Hepic Hsum)
        as (k & r & Hk & Hr & He & Hs & Hbefore & Hit).
      exists (S k), r. split; [cbn; lia|]. split; [done|]. split; [done|].
      split; [done|]. split.
      * intros [|j] r' Hj Hr'; cbn in Hr'.
        -- by injection Hr' as <-.
        -- eapply Hbefore; [|exact Hr']. lia.
      * cbn. unfold step at 1. rewrite Hr0, Hs0. cbn.
        rewrite Hit. f_equal. f_equal. lia.
Qed.

(** C6: a Story row that no Epic row precedes aborts the conversion: the
    expander raises OrphanStoryError with the position of the first such
    row, and no table comes out. *)
Theorem orphan_story_aborts data pre row post :
  required_cols ⊆ columns data ->
  rows data = pre ++ row :: post ->
  Forall (fun r => row_get (columns data) r "EPIC" = None) pre ->
  row_get (columns data) row "EPIC" = None ->
  notna (row_get (columns data) row "SUMMARY") = true ->
  exists k r,
    (k <= length pre)%nat /\
    rows data !! k = Some r /\
    row_get (columns data) r "EPIC" = None /\
    notna (row_get (columns data) r "SUMMARY") = true /\
    (forall j r', (j < k)%nat -> rows data !! j = Some r' ->
       row_get (columns data) r' "SUMMARY" = None) /\
    dataframeprocess data = Err (OrphanStoryError k) /\
    forall raw, preprocess raw = Ok data ->
      preprocess_file raw = Err (OrphanStoryError k).
Proof.
  intros Hcols Hrows Hpre Hepic Hsum.
  destruct (orphan_iterrows (columns data) row post pre 0 initial)
    as (k & r & Hk & Hr & He & Hs & Hbefore & Hit); try done.
  exists k, r. rewrite Hrows. do 5 (split; [done|]).
  assert (Hrun : dataframeprocess data = Err (OrphanStoryError k)).
  { unfold dataframeprocess. rewrite decide_True by done.
    rewrite Hrows, Hit. done. }
  split; [done|]. intros raw Hraw. unfold preprocess_file.
  rewrite Hraw. cbn. by rewrite Hrun.
Qed.

(** ** Estimates that are not numbers *)









(** ** Stage 1 *)

Lemma preprocess_checked raw :
  rows raw <> [] -> columns raw <> [] -> (2 <= length (rows raw))%nat ->
  "EPIC" ∈ columns (cleanup raw) ->
  preprocess raw
  = match list_find is_END (column_values (cleanup raw) "EPIC") with
    | Some (end_index, _) =>
        Ok {| columns := columns (cleanup raw);
              rows := take end_index (rows (cleanup raw)) |}
    | None => Err MissingSentinelError
    end.
Proof.
  intros Hr Hc Hlen Hepic. unfold preprocess.
  rewrite bool_decide_eq_false_2 by tauto.
  rewrite (proj2 (Nat.ltb_ge _ _)) by done. cbn [orb].
  by rewrite decide_True.
Qed.

Lemma find_END cols pre r post :
  Forall (fun r' => row_get cols r' "EPIC" <> str "END") pre ->
  row_get cols r "EPIC" = str "END" ->
  list_find is_END (map (fun r => row_get cols r "EPIC") (pre ++ r :: post))
  = Some (length pre, str "END").
Proof.
  intros Hpre Hr. apply list_find_Some. split; [|split].
  - rewrite list_lookup_fmap, lookup_app_r, Nat.sub_diag by done. cbn. by rewrite Hr.
  - done.
  - intros j c Hj Hlt. rewrite list_lookup_fmap, lookup_app_l in Hj by done.
    apply fmap_Some in Hj as (r' & Hr' & ->).
    apply (proj1 (Forall_forall _ _) Hpre). by eapply list_elem_of_lookup_2.
Qed.

Lemma dataframeprocess_no_rows cols :
  required_cols ⊆ cols ->
  dataframeprocess {| columns := cols; rows := [] |}
  = Ok (frame_of [], ∅, ∅).
Proof. intros H. unfold dataframeprocess. cbn. by rewrite decide_True. Qed.

Lemma postprocess_no_rows :
  postprocess (frame_of []) ∅ ∅ = Ok {| columns := final_columns; rows := [] |}.
Proof. by rewrite postprocess_frame. Qed.

(** C5: a cleaned table without END in its EPIC column is refused with
    MissingSentinelError; otherwise the rows before the first END are
    kept; and with END as the first EPIC value the table that comes out
    has no rows, which is not an error, neither of the normalizer nor of
    the conversion. *)
Theorem sentinel_handling raw :
  rows raw <> [] -> columns raw <> [] -> (2 <= length (rows raw))%nat ->
  "EPIC" ∈ columns (cleanup raw) ->
  let clean := cleanup raw in
  (Forall (fun c => c <> str "END") (column_values clean "EPIC") ->
   preprocess raw = Err MissingSentinelError) /\
  (forall pre r post,
     rows clean = pre ++ r :: post ->
     Forall (fun r' => row_get (columns clean) r' "EPIC" <> str "END") pre ->
     row_get (columns clean) r "EPIC" = str "END" ->
     preprocess raw = Ok {| columns := columns clean; rows := pre |}) /\
  (forall r post,
     rows clean = r :: post ->
     row_get (columns clean) r "EPIC" = str "END" ->
     preprocess raw = Ok {| columns := columns clean; rows := [] |} /\
     (required_cols ⊆ columns clean ->
      preprocess_file raw = Ok {| columns := final_columns; rows := [] |})).
Proof.
  intros Hr Hc Hlen Hepic clean.
  rewrite (preprocess_checked raw Hr Hc Hlen Hepic). fold clean.
  assert (Hcut : forall pre r post,
     rows clean = pre ++ r :: post ->
     Forall (fun r' => row_get (columns clean) r' "EPIC" <> str "END") pre ->
     row_get (columns clean) r "EPIC" = str "END" ->
     match list_find is_END (column_values clean "EPIC") with
     | Some (end_index, _) =>
         Ok {| columns := columns clean; rows := take end_index (rows clean) |}
     | None => Err MissingSentinelError
     end = Ok {| columns := columns clean; rows := pre |}).
  { intros pre r post Hrows Hpre Hend. unfold column_values.
    rewrite Hrows, (find_END _ pre r post Hpre Hend).
    by rewrite take_app_length. }
  split; [|split].
  - intros Hno. by rewrite (proj2 (list_find_None _ _) Hno).
  - exact Hcut.
  - intros r post Hrows Hend.
    pose proof (Hcut [] r post Hrows (List.Forall_nil _) Hend) as Hpre.
    split; [exact Hpre|]. intros Hreq. unfold preprocess_file.
    rewrite (preprocess_checked raw Hr Hc Hlen Hepic). fold clean.
    rewrite Hpre. cbn [mbind result_bind].
    rewrite (dataframeprocess_no_rows _ Hreq). cbn [mbind result_bind].
    apply postprocess_no_rows.
Qed.

(** ** Stage 1 on its own output *)

Lemma preprocess_Ok raw t :
  preprocess raw = Ok t ->
  "EPIC" ∈ columns (cleanup raw) /\
  exists end_index c,
    list_find is_END (column_values (cleanup raw) "EPIC") = Some (end_index, c) /\
    t = {| columns := columns (cleanup raw);
           rows := take end_index (rows (cleanup raw)) |}.
Proof.
  unfold preprocess. destruct (_ || _); [done|].
  destruct (decide ("EPIC" ∈ columns (cleanup raw))) as [Hepic|]; [|done].
  destruct (list_find _ _) as [[i c]|] eqn:Hfind; [|done].
  intros [= <-]. eauto.
Qed.

Lemma columns_drop_if_present df c :
  columns (drop_if_present df c) = filter (fun x => x <> c) (columns df).
Proof.
  unfold drop_if_present. destruct (decide (c ∈ columns df)) as [|Hc]; [done|].
  symmetry. apply filter_all, Forall_forall. intros x Hx ->. done.
Qed.

Lemma drop_if_present_absent df c :
  c ∉ columns df -> drop_if_present df c = df.
Proof. intros Hc. unfold drop_if_present. by rewrite decide_False. Qed.

Lemma cleanup_columns raw :
  Forall (fun c => c ∉ columns (cleanup raw)) placeholders /\
  (length (columns (cleanup raw)) <= 6)%nat.
Proof.
  unfold cleanup, placeholders. cbn [foldl dropna_all iloc_cols columns].
  split.
  - rewrite !columns_drop_if_present. cbn [columns].
    repeat constructor; intros H%subseteq_take;
      repeat (apply list_elem_of_filter in H as [? H]); done.
  - rewrite length_take. lia.
Qed.

Lemma cleanup_rows raw :
  Forall (fun r => (length r <= 6)%nat /\ existsb notna r = true)
    (rows (cleanup raw)).
Proof.
  unfold cleanup. cbn [dropna_all iloc_cols rows].
  apply Forall_forall. intros r [Hn Hr]%list_elem_of_filter. split; [|done].
  apply list_elem_of_fmap in Hr as (r' & -> & _). rewrite length_take. lia.
Qed.

Lemma row_get_take cols r c n v :
  (length cols <= n)%nat ->
  row_get cols r c = Some v -> row_get cols (take n r) c = Some v.
Proof.
  unfold row_get, col_index. intros Hlen.
  destruct (list_find (fun x => x = c) cols) as [[i x]|] eqn:Hfind; cbn; [|done].
  apply list_find_Some in Hfind as (Hi & _).
  apply lookup_lt_Some in Hi. by rewrite lookup_take_lt by lia.
Qed.

Lemma row_get_notna cols r c v :
  row_get cols r c = Some v -> existsb notna r = true.
Proof.
  unfold row_get. destruct (col_index cols c) as [i|]; [|done].
  destruct (r !! i) as [x|] eqn:Hi; cbn; [|done]. intros ->.
  apply existsb_exists. exists (Some v). split; [|done].
  apply list_elem_of_In. by eapply list_elem_of_lookup_2.
Qed.

(** C8, as amended: putting a first row back on top of a normalized
    table and an END row below it, the normalizer returns the table
    unchanged. *)
Theorem normalization_idempotent raw t dummy sentinel :
  preprocess raw = Ok t ->
  row_get (columns t) sentinel "EPIC" = str "END" ->
  preprocess {| columns := columns t; rows := dummy :: rows t ++ [sentinel] |}
  = Ok t.
Proof.
  intros (Hepic & i & c & Hfind & ->)%preprocess_Ok Hend.
  cbn [columns rows] in *. set (clean := cleanup raw) in *.
  destruct (cleanup_columns raw) as [Hph Hlen]. fold clean in Hph, Hlen.
  pose proof (cleanup_rows raw) as Hrows. fold clean in Hrows.
  apply list_find_Some in Hfind as (Hi & _ & Hbefore).
  assert (Hclean : cleanup {| columns := columns clean;
                              rows := dummy :: take i (rows clean) ++ [sentinel] |}
                   = {| columns := columns clean;
                        rows := take i (rows clean) ++ [take 6 sentinel] |}).
  { unfold cleanup at 1. cbn [tail rows columns]. unfold placeholders in *.
    cbn [foldl]. 
    apply Forall_cons in Hph as [H3 Hph]. apply Forall_cons in Hph as [H5 Hph].
    apply Forall_cons in Hph as [H7 _].
    rewrite (drop_if_present_absent _ "Unnamed: 3") by done.
    rewrite (drop_if_present_absent _ "Unnamed: 5") by done.
    rewrite (drop_if_present_absent _ "Unnamed: 7") by done.
    unfold dropna_all, iloc_cols. cbn [columns rows]. f_equal.
    - by apply take_ge.
    - rewrite map_app, filter_app. cbn [map]. f_equal.
      + rewrite filter_all.
        * rewrite <- (map_id (take i (rows clean))) at 2. apply map_ext_in.
          intros r Hr%list_elem_of_In%subseteq_take. apply take_ge.
          by apply (proj1 (Forall_forall _ _) Hrows).
        * apply Forall_fmap, Forall_forall. intros r Hr%subseteq_take. cbn.
          destruct (proj1 (Forall_forall _ _) Hrows r Hr) as [Hl Hn].
          by rewrite take_ge.
      + rewrite filter_cons, decide_True; [done|].
        eapply row_get_notna, row_get_take; [exact Hlen|exact Hend]. }
  rewrite preprocess_checked; cbn [rows columns]; rewrite ?Hclean; cbn [rows columns].
  - unfold column_values. cbn [rows columns].
    rewrite (find_END (columns clean) (take i (rows clean)) (take 6 sentinel) []).
    + by rewrite take_app_length.
    + apply Forall_forall. intros r Hr Hr'.
      apply list_elem_of_lookup in Hr as [j Hj].
      apply lookup_take_Some in Hj as [Hj Hlt].
      eapply (Hbefore j); [|exact Hlt|exact Hr'].
      unfold column_values. by rewrite list_lookup_fmap, Hj.
    + by apply row_get_take.
  - done.
  - intros Hnil. rewrite Hnil in Hepic. by apply not_elem_of_nil in Hepic.
  - cbn [length]. rewrite length_app. cbn [length]. lia.
  - done.
Qed.


(** * Further properties of the stages *)

(** ** Stage 1: what [preprocess] keeps *)

Lemma row_get_nil_row cols c : row_get cols [] c = None.
Proof. unfold row_get. by destruct (col_index cols c). Qed.

Lemma row_get_cons x cols r c :
  row_get (x :: cols) r c
  = if decide (x = c) then default None (head r) else row_get cols (tail r) c.
Proof.
  unfold row_get, col_index. cbn [list_find].
  destruct (decide (x = c)) as [->|Hne]; cbn.
  - by destruct r.
  - destruct (list_find (fun y => y = c) cols) as [[i y]|]; cbn; [|done].
    by rewrite lookup_tail.
Qed.

Lemma row_get_drop d cols : forall r c,
  c <> d ->
  row_get (filter (fun x => x <> d) cols)
    ((filter (fun p : string * cell => p.1 <> d) (zip cols r)).*2) c
  = row_get cols r c.
Proof.
  induction cols as [|x cols IH]; intros r c Hc; [done|].
  destruct r as [|a r].
  - cbn. rewrite !row_get_nil_row. done.
  - cbn [zip zip_with]. rewrite !filter_cons. cbn [fst].
    destruct (decide (x <> d)) as [Hx|Hx].
    + cbn [fmap list_fmap snd]. rewrite !row_get_cons. cbn [head tail].
      destruct (decide (x = c)); [done|]. by apply IH.
    + apply dec_stable in Hx as ->. rewrite row_get_cons, decide_False by done.
      cbn [tail]. by apply IH.
Qed.

Lemma row_get_take_cols n : forall cols r c,
  c ∈ take n cols ->
  row_get (take n cols) (take n r) c = row_get cols r c.
Proof.
  induction n as [|n IH]; intros cols r c Hc.
  - by apply not_elem_of_nil in Hc.
  - destruct cols as [|x cols]; [by apply not_elem_of_nil in Hc|].
    cbn [take] in *. rewrite !row_get_cons.
    destruct (decide (x = c)) as [->|Hne]; [by destruct r|].
    apply elem_of_cons in Hc as [->|Hc]; [done|].
    destruct r as [|a r]; cbn [take tail].
    + by rewrite !row_get_nil_row.
    + by apply IH.
Qed.

Lemma drop_if_present_rowwise x cols :
  exists f,
    (forall rs, drop_if_present {| columns := cols; rows := rs |} x
                = {| columns := filter (fun y => y <> x) cols; rows := map f rs |}) /\
    (forall r c, c <> x ->
       row_get (filter (fun y => y <> x) cols) (f r) c = row_get cols r c).
Proof.
  destruct (decide (x ∈ cols)) as [Hin|Hout].
  - exists (fun r => (filter (fun p : string * cell => p.1 <> x) (zip cols r)).*2).
    split.
    + intros rs. unfold drop_if_present. cbn [columns]. by rewrite decide_True.
    + intros r c Hc. by apply row_get_drop.
  - assert (Hcols : filter (fun y => y <> x) cols = cols).
    { apply filter_all, Forall_forall. by intros y Hy ->. }
    exists (fun r => r). split.
    + intros rs. unfold drop_if_present. cbn [columns].
      rewrite decide_False by done. by rewrite Hcols, map_id.
    + intros r c _. by rewrite Hcols.
Qed.

Lemma filter_placeholders (cols : list string) :
  filter (fun y => y <> "Unnamed: 7")
    (filter (fun y => y <> "Unnamed: 5")
       (filter (fun y => y <> "Unnamed: 3") cols))
  = filter (fun c => c ∉ placeholders) cols.
Proof.
  induction cols as [|x cols IH]; [done|].
  rewrite (filter_cons (fun c => c ∉ placeholders)).
  rewrite (filter_cons (fun y => y <> "Unnamed: 3")).
  assert (Hin : forall p, p ∈ placeholders -> ~ (x <> p) -> ~ (x ∉ placeholders)).
  { intros p Hp Hx Hn. apply Hx. intros ->. by apply Hn. }
  destruct (decide (x <> "Unnamed: 3")) as [H3|H3].
  - rewrite filter_cons. destruct (decide (x <> "Unnamed: 5")) as [H5|H5].
    + rewrite filter_cons. destruct (decide (x <> "Unnamed: 7")) as [H7|H7].
      * rewrite decide_True; [by rewrite IH|].
        unfold placeholders. rewrite !not_elem_of_cons.
        by repeat split; [..|apply not_elem_of_nil].
      * rewrite decide_False; [done|]. apply (Hin "Unnamed: 7"); [|done].
        repeat constructor.
    + rewrite decide_False; [done|]. apply (Hin "Unnamed: 5"); [|done].
      repeat constructor.
  - rewrite decide_False; [done|]. apply (Hin "Unnamed: 3"); [|done].
    repeat constructor.
Qed.

(** [cleanup] works row by row: the columns kept depend on the header
    only, and a kept cell is the cell of the input row under the same
    label. *)
Lemma cleanup_rowwise cols :
  exists f,
    (forall rs,
       cleanup {| columns := cols; rows := rs |}
       = {| columns := kept_columns cols;
            rows := filter (fun r => existsb notna r = true) (map f (tail rs)) |}) /\
    (forall r c, c ∈ kept_columns cols ->
       row_get (kept_columns cols) (f r) c = row_get cols r c).
Proof.
  destruct (drop_if_present_rowwise "Unnamed: 3" cols) as (f3 & Hf3 & Hg3).
  destruct (drop_if_present_rowwise "Unnamed: 5"
              (filter (fun y => y <> "Unnamed: 3") cols)) as (f5 & Hf5 & Hg5).
  destruct (drop_if_present_rowwise "Unnamed: 7"
              (filter (fun y => y <> "Unnamed: 5")
                 (filter (fun y => y <> "Unnamed: 3") cols))) as (f7 & Hf7 & Hg7).
  exists (fun r => take 6 (f7 (f5 (f3 r)))). split.
  - intros rs. unfold cleanup, placeholders. cbn [foldl columns rows].
    rewrite Hf3, Hf5, Hf7. unfold dropna_all, iloc_cols. cbn [columns rows].
    unfold kept_columns. rewrite filter_placeholders. by rewrite !map_map.
  - intros r c Hc. unfold kept_columns in *. rewrite <- filter_placeholders in *.
    rewrite row_get_take_cols by done.
    apply subseteq_take in Hc.
    apply list_elem_of_filter in Hc as [H7 Hc].
    apply list_elem_of_filter in Hc as [H5 Hc].
    apply list_elem_of_filter in Hc as [H3 Hc].
    by rewrite Hg7, Hg5, Hg3.
Qed.

Lemma preprocess_rowwise raw t :
  preprocess raw = Ok t ->
  exists f end_index,
    (forall r c, c ∈ kept_columns (columns raw) ->
       row_get (kept_columns (columns raw)) (f r) c = row_get (columns raw) r c) /\
    let cleaned := filter (fun r => existsb notna r = true)
                     (map f (tail (rows raw))) in
    "EPIC" ∈ kept_columns (columns raw) /\
    (end_index < length cleaned)%nat /\
    (forall j r, cleaned !! j = Some r -> (j < end_index)%nat ->
       row_get (kept_columns (columns raw)) r "EPIC" <> str "END") /\
    t = {| columns := kept_columns (columns raw);
           rows := take end_index cleaned |}.
Proof.
  intros (Hepic & i & c & Hfind & ->)%preprocess_Ok.
  destruct (cleanup_rowwise (columns raw)) as (f & Hclean & Hget).
  destruct raw as [cols rs]. cbn [columns rows] in *.
  rewrite Hclean in *. cbn [columns rows] in *.
  exists f, i. split; [done|]. cbv zeta. split; [done|].
  apply list_find_Some in Hfind as (Hi & _ & Hbefore).
  unfold column_values in Hi, Hbefore. cbn [columns rows] in Hi, Hbefore.
  split; [|split; [|done]].
  - apply lookup_lt_Some in Hi. by rewrite length_map in Hi.
  - intros j r Hj Hlt. eapply (Hbefore j); [|done].
    by rewrite list_lookup_fmap, Hj.
Qed.

(** X1: what [preprocess] returns has the first six columns of the
    input that are not placeholders, EPIC among them; it has at least
    two rows less than the input, none of them without a value, none
    with END as its epic. *)
Theorem preprocess_output raw t :
  preprocess raw = Ok t ->
  columns t = kept_columns (columns raw) /\
  "EPIC" ∈ columns t /\
  (length (rows t) + 2 <= length (rows raw))%nat /\
  Forall (fun r => existsb notna r = true /\
                   row_get (columns t) r "EPIC" <> str "END") (rows t).
Proof.
  intros (f & i & _ & Hepic & Hi & Hbefore & ->)%preprocess_rowwise.
  cbn [columns rows]. split; [done|]. split; [done|]. split.
  - rewrite length_take.
    pose proof (length_filter (fun r => existsb notna r = true)
                  (map f (tail (rows raw)))) as Hlen.
    rewrite length_map in Hlen. destruct (rows raw); cbn in *; lia.
  - apply Forall_forall. intros r Hr.
    apply list_elem_of_lookup in Hr as [j Hj].
    apply lookup_take_Some in Hj as [Hj Hlt]. split.
    + apply list_elem_of_lookup_2 in Hj. by apply list_elem_of_filter in Hj as [? _].
    + by eapply Hbefore.
Qed.

(** X2: every row [preprocess] returns is a row of the input, other
    than the first, cut down to the kept columns: the rows come in the
    order of the input and each cell is the cell of the input row under
    the same label. *)
Theorem preprocess_keeps_cells raw t :
  preprocess raw = Ok t ->
  exists kept,
    kept `sublist_of` tail (rows raw) /\
    Forall2 (fun r' r => forall c, c ∈ columns t ->
               row_get (columns t) r' c = row_get (columns raw) r c)
      (rows t) kept.
Proof.
  intros (f & i & Hget & _ & _ & _ & ->)%preprocess_rowwise.
  cbn [columns rows].
  exists (take i (filter (fun r => existsb notna (f r) = true) (tail (rows raw)))).
  split.
  - etrans; [apply sublist_take|apply sublist_filter].
  - rewrite (filter_map_comm _ (fun r => existsb notna (f r) = true)) by done.
    rewrite <- fmap_take. apply Forall2_fmap_l, Forall_Forall2_diag, Forall_forall.
    intros r _ c Hc. by apply Hget.
Qed.

(** X3: the first data row has no part in the result of
    [preprocess]. *)
Theorem first_row_ignored cols r1 r2 rest :
  preprocess {| columns := cols; rows := r1 :: rest |}
  = preprocess {| columns := cols; rows := r2 :: rest |}.
Proof.
  unfold preprocess, cleanup. cbn [columns rows tail length].
  by rewrite (bool_decide_ext (r1 :: rest = [] \/ cols = [])
                (r2 :: rest = [] \/ cols = [])) by (split; intros [?|?]; auto; done).
Qed.

(** X4: what follows the END row has no part in the result: rows added
    at the bottom of a table that [preprocess] accepts leave its result
    as it is. *)
Theorem rows_after_END_ignored cols rs extra t :
  preprocess {| columns := cols; rows := rs |} = Ok t ->
  preprocess {| columns := cols; rows := rs ++ extra |} = Ok t.
Proof.
  intros H. pose proof H as (Hepic & i & c & Hfind & ->)%preprocess_Ok.
  destruct (cleanup_rowwise cols) as (f & Hclean & _).
  assert (Hrs : rs <> []).
  { intros ->. unfold preprocess in H. by cbn in H. }
  assert (Hcols : cols <> []).
  { intros ->. unfold preprocess in H. cbn in H.
    rewrite bool_decide_eq_true_2 in H by auto. done. }
  assert (Hlen : (2 <= length rs)%nat).
  { unfold preprocess in H. cbn [rows columns] in H.
    destruct (length rs <? 2)%nat eqn:Hl; [by rewrite orb_true_r in H|].
    by apply Nat.ltb_ge in Hl. }
  rewrite Hclean in *. cbn [columns rows] in *.
  rewrite preprocess_checked; cbn [columns rows]; rewrite ?Hclean;
    cbn [columns rows]; try done.
  - destruct rs as [|r0 rs]; [done|]. cbn [tail app] in *.
    unfold column_values in *. cbn [columns rows] in *.
    rewrite map_app, filter_app, map_app.
    erewrite list_find_app_l by exact Hfind.
    apply list_find_Some in Hfind as (Hi%lookup_lt_Some & _).
    rewrite length_map in Hi. by rewrite take_app_le by lia.
  - by destruct rs.
  - rewrite length_app. lia.
Qed.

(** ** Stage 2: more of the loop invariant *)

Lemma epic_names_app l k : epic_names (l ++ k) = epic_names l ++ epic_names k.
Proof. unfold epic_names. apply omap_app. Qed.

Lemma epic_names_epic_record name summary notes :
  epic_names [epic_record name summary notes] = [name].
Proof. unfold epic_names. cbn [omap list_omap]. by rewrite decide_True. Qed.

Lemma epic_names_expand link summary notes serv ios and :
  epic_names (expand link summary notes serv ios and) = [].
Proof. unfold expand, populated. by destruct serv, ios, and. Qed.

Lemma expand_stories link summary notes serv ios and :
  Forall (fun i => Issue_Type i = str "Story" /\ Epic_Link i = Some link /\
                   exists c, c ∈ tags /\ Components i = str c)
    (expand link summary notes serv ios and).
Proof.
  unfold expand, populated, tags.
  destruct serv, ios, and; cbn; repeat constructor; eexists; split; try done;
    repeat constructor.
Qed.

Lemma invariant_more_initial : invariant_more initial.
Proof.
  split; cbn; try done.
  - intros n [x Hx]. by rewrite lookup_empty in Hx.
  - intros n [x Hx]. by rewrite lookup_empty in Hx.
Qed.

Lemma invariant_more_epic_row name summary notes st :
  invariant_more st -> invariant_more (epic_row name summary notes st).
Proof.
  intros [Hlast Hlinks Hek Htk Htags]. split; cbn.
  - by rewrite epic_names_app, epic_names_epic_record, last_snoc.
  - intros k s Hk Hs. apply lookup_app_Some in Hk as [Hk|[Hlen Hk]].
    + destruct (Hlinks k s Hk Hs) as (link & Hl1 & Hl2). exists link.
      split; [done|]. apply lookup_lt_Some in Hk. by rewrite take_app_le by lia.
    + destruct (k - length (data_rows st))%nat; [|done].
      injection Hk as <-. done.
  - intros n Hn. apply Exists_app.
    destruct (decide (name = n)) as [->|Hne].
    + right. constructor. by apply epic_named_epic_record.
    + rewrite lookup_insert_ne in Hn by done. left. auto.
  - intros n Hn. apply Exists_app.
    destruct (decide (name = n)) as [->|Hne].
    + right. constructor. by apply epic_named_epic_record.
    + rewrite lookup_insert_ne in Hn by done. left. auto.
  - apply Forall_app. split; [done|]. by repeat constructor.
Qed.

Lemma invariant_more_story_row index serv ios and summary notes st st' :
  invariant_more st ->
  story_row index serv ios and summary notes st = Ok st' ->
  invariant_more st'.
Proof.
  intros [Hlast Hlinks Hek Htk Htags] H.
  apply story_row_Ok in H as (Ht & Hc & Hd & Hk & _ & total & xs & Htot & Hxs & Hest).
  assert (Hcur : last (epic_names (data_rows st)) = Some (current_epic_name st)).
  { destruct (last (epic_names (data_rows st))) as [n|]; cbn in Hlast; [by subst|].
    by rewrite Hlast in Ht. }
  split; rewrite ?Hd, ?Hc, ?Hest.
  - by rewrite epic_names_app, epic_names_expand, app_nil_r.
  - intros k s Hks Hs. apply lookup_app_Some in Hks as [Hks|[Hlen Hks]].
    + destruct (Hlinks k s Hks Hs) as (link & Hl1 & Hl2). exists link.
      split; [done|]. apply lookup_lt_Some in Hks. by rewrite take_app_le by lia.
    + exists (current_epic_name st). split.
      * apply list_elem_of_lookup_2 in Hks.
        by destruct (proj1 (Forall_forall _ _) (expand_stories _ _ _ _ _ _) s Hks)
          as (_ & ? & _).
      * rewrite take_app_ge, epic_names_app by done.
        assert (Hnone : epic_names (take (k - length (data_rows st))
                  (expand (current_epic_name st) summary notes serv ios and)) = []).
        { pose proof (epic_names_expand (current_epic_name st) summary notes
                        serv ios and) as He.
          rewrite <- (take_drop (k - length (data_rows st))
                        (expand _ _ _ _ _ _)), epic_names_app in He.
          by apply app_eq_nil in He as [? _]. }
        by rewrite Hnone, app_nil_r.
  - intros n Hn. apply Exists_app. left. apply Hek.
    destruct (decide (current_epic_name st = n)) as [<-|Hne]; [eauto|].
    by rewrite lookup_insert_ne in Hn.
  - intros n Hn. apply Exists_app. left. apply Htk. by apply Hk.
  - apply Forall_app. split; [done|].
    eapply List.Forall_impl; [|apply expand_stories]. by intros i (_ & _ & ?) _.
Qed.

Lemma invariant_more_iterrows cols rs : forall index st st',
  invariant_more st -> iterrows cols index rs st = Ok st' -> invariant_more st'.
Proof.
  induction rs as [|row rs IH]; intros index st st' Hinv; cbn.
  - by intros [= <-].
  - intros (st1 & H1 & H)%bind_Ok. eapply IH; [|exact H].
    apply step_Ok in H1 as [(name & _ & ->)|[(_ & _ & H1)|(_ & _ & ->)]].
    + by apply invariant_more_epic_row.
    + by eapply invariant_more_story_row.
    + done.
Qed.

(** ** Stage 2: the aggregates since the last declaration of a name *)

Lemma app_eq_split {A} (l k : list A) : forall pre e post,
  l ++ k = pre ++ e :: post ->
  (exists post', l = pre ++ e :: post' /\ post = post' ++ k) \/
  (exists pre', pre = l ++ pre' /\ k = pre' ++ e :: post).
Proof.
  induction l as [|a l IH]; intros pre e post H.
  - right. by exists pre.
  - destruct pre as [|b pre]; cbn in H; injection H as -> H.
    + left. by exists l.
    + destruct (IH _ _ _ H) as [(post' & -> & ->)|(pre' & -> & ->)].
      * left. by exists post'.
      * right. by exists pre'.
Qed.

Lemma platform_flag c set_flag component summary notes st xs st' xs' f :
  platform c set_flag component summary notes (st, xs) = Ok (st', xs') ->
  epic_components_tracker st !! current_epic_name st = Some f ->
  epic_components_tracker st' !! current_epic_name st
  = Some (if notna c then set_flag f else f).
Proof.
  unfold platform. intros H Hf. destruct c as [v|]; cbn [notna].
  - rewrite Hf in H. destruct (float v) as [x|]; [|done].
    cbn in H. injection H as <- _. cbn. by rewrite lookup_insert_eq.
  - by injection H as <- _.
Qed.

Lemma story_row_flags index serv ios and summary notes st st' f :
  story_row index serv ios and summary notes st = Ok st' ->
  epic_components_tracker st !! current_epic_name st = Some f ->
  exists f',
    epic_components_tracker st' !! current_epic_name st = Some f' /\
    Server f' = Server f || notna serv /\
    iOS f' = iOS f || notna ios /\
    Android f' = Android f || notna and.
Proof.
  unfold story_row. destruct (truthy (current_epic_name st)); [|done].
  cbn [negb]. intros H Hf.
  apply bind_Ok in H as [[st1 xs1] [H1 H]].
  apply bind_Ok in H as [[st2 xs2] [H2 H]].
  apply bind_Ok in H as [[st3 xs3] [H3 H]].
  pose proof (platform_flag _ _ _ _ _ _ _ _ _ _ H1 Hf) as Hf1.
  apply platform_Ok in H1 as (Hc1 & _).
  rewrite <- Hc1 in Hf1.
  pose proof (platform_flag _ _ _ _ _ _ _ _ _ _ H2 Hf1) as Hf2.
  apply platform_Ok in H2 as (Hc2 & _).
  rewrite <- Hc2 in Hf2.
  pose proof (platform_flag _ _ _ _ _ _ _ _ _ _ H3 Hf2) as Hf3.
  apply platform_Ok in H3 as (Hc3 & _).
  destruct (epic_estimates st3 !! current_epic_name st3); [|done].
  injection H as <-. cbn [epic_components_tracker].
  rewrite Hc2, Hc1 in Hf3. eexists. split; [exact Hf3|].
  destruct f as [[] [] []], serv, ios, and; done.
Qed.

Lemma expand_component link summary notes serv ios and c :
  Exists (fun i => story_of link i /\ Components i = str c)
    (expand link summary notes serv ios and)
  <-> (c = "Server" /\ notna serv = true) \/
      (c = "iOS" /\ notna ios = true) \/
      (c = "Android" /\ notna and = true).
Proof.
  unfold expand, populated, story_of, str.
  destruct serv, ios, and; cbn; rewrite ?Exists_cons, ?Exists_nil;
    (split; [intros H; try contradiction; decompose [or and] H; clear H; cbn in *;
             unfold str in *; simplify_eq; try done; auto 10
            |intros H; decompose [or and] H; clear H; subst; try done; auto 10]).
Qed.

Lemma flag_of_tags c f :
  c ∈ tags ->
  flag_of c f = (bool_decide (c = "Server") && Server f)
                || (bool_decide (c = "iOS") && iOS f)
                || (bool_decide (c = "Android") && Android f).
Proof.
  unfold tags. rewrite !elem_of_cons, elem_of_nil.
  intros [->|[->|[->|[]]]]; unfold flag_of; cbn; by destruct f as [[] [] []].
Qed.

Lemma flag_step c f f' (serv ios and : cell) :
  c ∈ tags ->
  Server f' = Server f || notna serv ->
  iOS f' = iOS f || notna ios ->
  Android f' = Android f || notna and ->
  flag_of c f' = true <->
  flag_of c f = true \/
  (c = "Server" /\ notna serv = true) \/
  (c = "iOS" /\ notna ios = true) \/
  (c = "Android" /\ notna and = true).
Proof.
  unfold tags. rewrite !elem_of_cons, elem_of_nil.
  intros [->|[->|[->|[]]]] HS HI HA; unfold flag_of;
    repeat case_decide; try discriminate; try congruence;
    rewrite ?HS, ?HI, ?HA, orb_true_iff;
    (split; [intros [?|?]; auto 6
            |intros [?|[[? ?]|[[? ?]|[? ?]]]]; auto; discriminate]).
Qed.

Lemma parsed_expand link summary notes serv ios and xs :
  Forall2 (fun p x => float p.2 = Ok x) (populated serv ios and) xs ->
  parsed (expand link summary notes serv ios and) xs.
Proof.
  intros H. unfold parsed, expand. apply Forall2_fmap_l.
  eapply Forall2_impl; [exact H|]. intros [c v] x Hx. cbn. eauto.
Qed.

Lemma parsed_app l k xs ys : parsed l xs -> parsed k ys -> parsed (l ++ k) (xs ++ ys).
Proof. apply Forall2_app. Qed.

Lemma filter_story_of_expand n link summary notes serv ios and :
  filter (story_of n) (expand link summary notes serv ios and)
  = if decide (n = link) then expand link summary notes serv ios and else [].
Proof.
  destruct (decide (n = link)) as [->|Hne].
  - apply filter_all. eapply List.Forall_impl; [|apply expand_stories].
    by intros i (? & ? & _).
  - apply filter_none. intros H%Exists_story_of_expand. done.
Qed.

Lemma aggregates_initial : aggregates initial.
Proof. intros pre e post n H. by destruct pre. Qed.

Lemma aggregates_epic_row name summary notes st :
  aggregates st -> aggregates (epic_row name summary notes st).
Proof.
  intros Hagg pre e post n Hrows He Hpost. cbn in Hrows.
  apply app_eq_split in Hrows as [(post' & Hrows & ->)|(pre' & -> & Hrows)].
  - apply Forall_app in Hpost as [Hpost' Hnew].
    apply Forall_cons in Hnew as [Hnew _].
    rewrite epic_named_epic_record in Hnew.
    destruct (Hagg _ _ _ _ Hrows He Hpost') as [(xs & Hxs & Hest) (f & Hf & Hflags)].
    cbn [epic_row epic_estimates epic_components_tracker].
    rewrite !lookup_insert_ne by done.
    rewrite filter_app, filter_cons, decide_False, filter_nil, app_nil_r
      by apply not_story_of_epic.
    split; [by exists xs|]. exists f. split; [done|]. intros c Hc.
    rewrite (Hflags c Hc), Exists_app, Exists_cons, Exists_nil.
    split; [auto|]. intros [?|[[[[=] _] _]|[]]]. done.
  - destruct pre' as [|a pre']; cbn in Hrows.
    + injection Hrows as <- <-. apply epic_named_epic_record in He as ->.
      cbn [epic_row epic_estimates epic_components_tracker].
      rewrite !lookup_insert_eq. split.
      * exists []. split; [constructor|done].
      * exists no_flags. split; [done|]. intros c Hc.
        rewrite Exists_nil, flag_of_tags by done. cbn.
        rewrite !andb_false_r. done.
    + injection Hrows as _ Hrows. by destruct pre'.
Qed.

Lemma aggregates_story_row index serv ios and summary notes st st' :
  aggregates st ->
  story_row index serv ios and summary notes st = Ok st' ->
  aggregates st'.
Proof.
  intros Hagg H pre e post n Hrows He Hpost.
  pose proof H as Hflag.
  apply story_row_Ok in H as (Ht & Hc & Hd & _ & Hother & total & xs & Htot & Hxs & Hest).
  rewrite Hd in Hrows.
  apply app_eq_split in Hrows as [(post' & Hrows & ->)|(pre' & -> & Hrows)].
  2:{ exfalso. eapply (Exists_epic_named_expand n). rewrite Hrows.
      apply Exists_app. right. by constructor. }
  apply Forall_app in Hpost as [Hpost' _].
  destruct (Hagg _ _ _ _ Hrows He Hpost') as [(ys & Hys & Hsum) (f & Hf & Hflags)].
  rewrite filter_app, filter_story_of_expand, Hest.
  destruct (decide (n = current_epic_name st)) as [->|Hne].
  - split.
    + exists (ys ++ xs). split; [by apply parsed_app, parsed_expand|].
      rewrite lookup_insert_eq, sum_app. rewrite Htot in Hsum.
      by injection Hsum as ->.
    + destruct (story_row_flags _ _ _ _ _ _ _ _ _ Hflag Hf)
        as (f' & Hf' & HS & HI & HA).
      exists f'. split; [done|]. intros c Hc'.
      rewrite Exists_app, expand_component, <- (Hflags c Hc').
      by apply flag_step.
  - rewrite app_nil_r, lookup_insert_ne by done. split; [by exists ys|].
    exists f. rewrite Hother by done. split; [done|]. intros c Hc'.
    rewrite Exists_app, (Hflags c Hc'). split; [auto|]. intros [?|Hex]; [done|].
    apply Exists_exists in Hex as (i & Hi & Hstory & _).
    exfalso. apply Hne. apply (Exists_story_of_expand n _ summary notes
      serv ios and). apply Exists_exists. eauto.
Qed.

Lemma aggregates_iterrows cols rs : forall index st st',
  aggregates st -> iterrows cols index rs st = Ok st' -> aggregates st'.
Proof.
  induction rs as [|row rs IH]; intros index st st' Hagg; cbn.
  - by intros [= <-].
  - intros (st1 & H1 & H)%bind_Ok. eapply IH; [|exact H].
    apply step_Ok in H1 as [(name & _ & ->)|[(_ & _ & H1)|(_ & _ & ->)]].
    + by apply aggregates_epic_row.
    + by eapply aggregates_story_row.
    + done.
Qed.

(** ** What [dataframeprocess] returns *)

Lemma cells_inj i j : cells i = cells j -> i = j.
Proof. destruct i, j. unfold cells. cbn. intros H. by simplify_eq. Qed.

Lemma frame_of_inj recs recs' : frame_of recs = frame_of recs' -> recs = recs'.
Proof.
  intros H. apply (f_equal rows) in H. cbn [rows frame_of] in H.
  revert recs' H.
  induction recs as [|i recs IH]; intros [|j recs'] H; try done.
  cbn [map] in H.
  f_equal; [apply cells_inj; congruence | apply IH; congruence].
Qed.

Lemma dataframeprocess_records data recs est trk :
  dataframeprocess data = Ok (frame_of recs, est, trk) ->
  exists st,
    iterrows (columns data) 0 (rows data) initial = Ok st /\
    invariant st /\ invariant_more st /\ aggregates st /\
    recs = data_rows st /\ est = epic_estimates st /\
    trk = epic_components_tracker st.
Proof.
  intros (_ & st & Hit & Hinv & Hfd & -> & ->)%dataframeprocess_Ok.
  apply frame_of_inj in Hfd as ->. exists st. split; [done|]. split; [done|].
  split; [|split; [|done]].
  - eapply invariant_more_iterrows; [apply invariant_more_initial|exact Hit].
  - eapply aggregates_iterrows; [apply aggregates_initial|exact Hit].
Qed.


(** X6: the flags that [dataframeprocess] returns for an epic name tell
    the platforms of the Story records linked to that name that come
    after the last Epic record of the name: a flag is set exactly when
    one of these records carries its tag. *)
Theorem flags_since_last_declaration data recs est trk pre e post n :
  dataframeprocess data = Ok (frame_of recs, est, trk) ->
  recs = pre ++ e :: post ->
  epic_named n e ->
  Forall (fun i => ~ epic_named n i) post ->
  exists f,
    trk !! n = Some f /\
    forall c, c ∈ tags ->
      (flag_of c f = true <->
       Exists (fun i => story_of n i /\ Components i = str c) post).
Proof.
  intros (st & _ & _ & _ & Hagg & -> & -> & ->)%dataframeprocess_records Hrecs He Hpost.
  by destruct (Hagg _ _ _ _ Hrecs He Hpost) as [_ ?].
Qed.

Lemma elem_of_epic_names n recs :
  n ∈ epic_names recs <-> Exists (epic_named n) recs.
Proof.
  unfold epic_names. rewrite list_elem_of_omap, Exists_exists.
  split; intros (i & Hi & H); exists i; (split; [done|]).
  - destruct (decide (Issue_Type i = str "Epic")); [done|discriminate].
  - destruct H as [Ht Hn]. by rewrite decide_True.
Qed.

(** X7: the two dictionaries that [dataframeprocess] returns have the
    same keys, the names of the Epic records. *)
Theorem dictionary_keys data recs est trk n :
  dataframeprocess data = Ok (frame_of recs, est, trk) ->
  (is_Some (est !! n) <-> n ∈ epic_names recs) /\
  (is_Some (trk !! n) <-> n ∈ epic_names recs).
Proof.
  intros (st & _ & Hinv & Hmore & _ & -> & -> & ->)%dataframeprocess_records.
  rewrite elem_of_epic_names. split; split.
  - apply (inv_estimates_keys _ Hmore).
  - apply (inv_estimates _ Hinv).
  - apply (inv_tracker_keys _ Hmore).
  - apply (inv_tracker _ Hinv).
Qed.

(** ** The whole pipeline *)

Lemma preprocess_file_Ok raw out :
  preprocess_file raw = Ok out ->
  exists data st,
    preprocess raw = Ok data /\
    required_cols ⊆ columns data /\
    iterrows (columns data) 0 (rows data) initial = Ok st /\
    invariant st /\ invariant_more st /\
    out = {| columns := final_columns;
             rows := map (final_row (epic_estimates st) (epic_components_tracker st))
                       (data_rows st) |}.
Proof.
  unfold preprocess_file. intros H.
  apply bind_Ok in H as (data & Hpre & H).
  apply bind_Ok in H as ([[fd est] trk] & Hd & H). cbv beta iota in H.
  pose proof Hd as (Hreq & st & Hit & Hinv & -> & -> & ->)%dataframeprocess_Ok.
  rewrite postprocess_run in H by done. injection H as <-.
  exists data, st. repeat (split; [done|]). split; [|done].
  eapply invariant_more_iterrows; [apply invariant_more_initial|exact Hit].
Qed.

Lemma epic_names_of_final est trk recs :
  epic_names_of final_columns (map (final_row est trk) recs) = epic_names recs.
Proof.
  unfold epic_names_of, epic_names. induction recs as [|i recs IH]; [done|].
  csimpl. destruct (final_row_cells est trk i) as (-> & -> & _). by rewrite IH.
Qed.

(** X8: in the finished table the epic link of a Story row is the name
    of the last Epic row above it. *)
Theorem story_links_last_epic raw out k r :
  preprocess_file raw = Ok out ->
  rows out !! k = Some r ->
  row_get (columns out) r "Issue Type" = str "Story" ->
  exists link,
    row_get (columns out) r "Epic Link" = Some link /\
    last (epic_names_of (columns out) (take k (rows out))) = Some link.
Proof.
  intros (data & st & _ & _ & _ & _ & Hmore & ->)%preprocess_file_Ok.
  cbn [columns rows]. rewrite list_lookup_fmap.
  intros (i & Hi & ->)%fmap_Some.
  destruct (final_row_cells (epic_estimates st) (epic_components_tracker st) i)
    as (-> & _ & -> & _).
  intros Ht. destruct (inv_links _ Hmore k i Hi Ht) as (link & Hl & Hlast).
  exists link. split; [done|].
  by rewrite <- fmap_take, epic_names_of_final.
Qed.

(** ** Stage 2: the records and the rows they come from *)

Lemma length_expand link summary notes serv ios and :
  length (expand link summary notes serv ios and)
  = length (populated serv ios and).
Proof. unfold expand. by rewrite length_map. Qed.

Lemma iterrows_length cols rs : forall index st st',
  iterrows cols index rs st = Ok st' ->
  length (data_rows st')
  = (length (data_rows st) + sum_list_with (emitted_count cols) rs)%nat.
Proof.
  induction rs as [|row rs IH]; intros index st st'; cbn [iterrows sum_list_with].
  - intros [= <-]. lia.
  - intros (st1 & H1 & H)%bind_Ok. rewrite (IH _ _ _ H).
    enough (length (data_rows st1)
            = (length (data_rows st) + emitted_count cols row)%nat) by lia.
    unfold emitted_count.
    apply step_Ok in H1 as [(name & -> & ->)|[(-> & -> & Hs)|(-> & -> & ->)]];
      cbn [notna].
    + cbn [epic_row data_rows]. by rewrite length_app.
    + apply story_row_Ok in Hs as (_ & _ & -> & _).
      by rewrite length_app, length_expand.
    + lia.
Qed.

(** X9: the finished table has one row for each Epic row of the cleaned
    table and one for each platform cell with a value of each of its
    Story rows, and no other row. *)
Theorem record_count data fd est trk out :
  dataframeprocess data = Ok (fd, est, trk) ->
  postprocess fd est trk = Ok out ->
  length (rows out) = sum_list_with (emitted_count (columns data)) (rows data).
Proof.
  intros (_ & st & Hit & Hinv & -> & -> & ->)%dataframeprocess_Ok.
  rewrite postprocess_run by done. intros [= <-]. cbn [rows].
  rewrite length_map. by rewrite (iterrows_length _ _ _ _ _ Hit).
Qed.

Lemma filter_Epic_expand link summary notes serv ios and :
  filter (fun i => Issue_Type i = str "Epic")
    (expand link summary notes serv ios and) = [].
Proof. unfold expand, populated. by destruct serv, ios, and. Qed.

Lemma iterrows_epic_records cols rs : forall index st st',
  iterrows cols index rs st = Ok st' ->
  filter (fun i => Issue_Type i = str "Epic") (data_rows st')
  = filter (fun i => Issue_Type i = str "Epic") (data_rows st)
    ++ epic_records_of cols rs.
Proof.
  induction rs as [|row rs IH]; intros index st st'; cbn [iterrows].
  - intros [= <-]. by rewrite app_nil_r.
  - intros (st1 & H1 & H)%bind_Ok. rewrite (IH _ _ _ H).
    unfold epic_records_of. csimpl.
    apply step_Ok in H1 as [(name & -> & ->)|[(-> & _ & Hs)|(-> & _ & ->)]];
      csimpl.
    + cbn [epic_row data_rows]. rewrite filter_app, <- app_assoc. done.
    + apply story_row_Ok in Hs as (_ & _ & -> & _).
      by rewrite filter_app, filter_Epic_expand, app_nil_r.
    + done.
Qed.

(** X10: the Epic records come from the rows with an epic, one for
    each, in the order of the rows, with the summary and the notes of
    the row; no other record has the type Epic. *)
Theorem epic_records_in_order data recs est trk :
  dataframeprocess data = Ok (frame_of recs, est, trk) ->
  filter (fun i => Issue_Type i = str "Epic") recs
  = epic_records_of (columns data) (rows data).
Proof.
  intros (st & Hit & _ & _ & _ & -> & _)%dataframeprocess_records.
  by rewrite (iterrows_epic_records _ _ _ _ _ Hit).
Qed.

Lemma step_index cols i j row st st' :
  step cols i row st = Ok st' -> step cols j row st = Ok st'.
Proof.
  unfold step. destruct (row_get cols row "EPIC"); [done|].
  destruct (notna (row_get cols row "SUMMARY")); [|done].
  unfold story_row. by destruct (truthy (current_epic_name st)).
Qed.

Lemma step_skip cols i row st :
  is_work_row cols row = false -> step cols i row st = Ok st.
Proof.
  unfold is_work_row, step. intros [He Hs]%orb_false_elim.
  destruct (row_get cols row "EPIC"); [done|]. by rewrite Hs.
Qed.

Lemma iterrows_work_rows cols rs : forall i j st st',
  iterrows cols i rs st = Ok st' <->
  iterrows cols j (filter (fun r => is_work_row cols r = true) rs) st = Ok st'.
Proof.
  induction rs as [|row rs IH]; intros i j st st'; [done|].
  rewrite filter_cons. destruct (decide (is_work_row cols row = true)) as [Hw|Hw].
  - cbn [iterrows]. split; intros (st1 & H1 & H)%bind_Ok.
    + rewrite (step_index _ _ j _ _ _ H1). cbn. by apply (IH (S i) (S j)).
    + rewrite (step_index _ _ i _ _ _ H1). cbn. by apply (IH (S i) (S j)).
  - apply not_true_is_false in Hw. cbn [iterrows]. rewrite step_skip by done.
    cbn. apply IH.
Qed.

(** X11: a row without epic and without summary counts for nothing,
    whatever its other cells hold: [dataframeprocess] returns a result
    on a table exactly when it returns it on the table without these
    rows. *)
Theorem rows_without_epic_and_summary_ignored data res :
  dataframeprocess data = Ok res <-> dataframeprocess (work_rows data) = Ok res.
Proof.
  unfold dataframeprocess, work_rows. cbn [columns rows].
  destruct (decide (required_cols ⊆ columns data)); [|done].
  split; intros (st & Hit & H)%bind_Ok.
  - apply (iterrows_work_rows _ _ 0 0) in Hit. by rewrite Hit.
  - apply (iterrows_work_rows _ _ 0 0) in Hit. by rewrite Hit.
Qed.

(** ** Errors *)




(** X13: a failure is final.  When [dataframeprocess] fails on a table,
    it fails with the same error on every table that goes on with more
    rows: no later row is read and nothing is returned. *)
Theorem failure_is_final cols pre post e :
  dataframeprocess {| columns := cols; rows := pre |} = Err e ->
  dataframeprocess {| columns := cols; rows := pre ++ post |} = Err e.
Proof.
  unfold dataframeprocess. cbn [columns rows].
  destruct (decide (required_cols ⊆ cols)); [|done].
  rewrite iterrows_app.
  by destruct (iterrows cols 0 pre initial) as [st|e1].
Qed.

(** X14: the records of the earlier rows stay as they are.  When
    [dataframeprocess] returns a result on a table, it returns one on
    every table of its first rows, and the records of that table are
    the first records of the whole. *)
Theorem earlier_records_kept cols pre post recs est trk :
  dataframeprocess {| columns := cols; rows := pre ++ post |}
  = Ok (frame_of recs, est, trk) ->
  exists recs0 est0 trk0,
    dataframeprocess {| columns := cols; rows := pre |}
    = Ok (frame_of recs0, est0, trk0) /\
    recs0 `prefix_of` recs.
Proof.
  unfold dataframeprocess. cbn [columns rows].
  destruct (decide (required_cols ⊆ cols)); [|done].
  rewrite iterrows_app.
  destruct (iterrows cols 0 pre initial) as [st0|e0]; [|done].
  cbn [mbind result_bind]. intros (st & Hit & H)%bind_Ok.
  injection H as H _ _.
  exists (data_rows st0), (epic_estimates st0), (epic_components_tracker st0).
  split; [done|].
  assert (Hfd : frame_of (data_rows st) = frame_of recs)
    by (unfold frame_of; by rewrite H).
  apply frame_of_inj in Hfd as <-. by eapply iterrows_prefix.
Qed.

(** ** The columns of the export *)

(** X15: the pipeline accepts an export only when the first six of its
    columns that are not placeholders are the six work columns, in any
    order. *)
Theorem accepted_columns raw out :
  preprocess_file raw = Ok out ->
  kept_columns (columns raw) ≡ₚ required_cols.
Proof.
  intros (data & st & Hpre & Hreq & _)%preprocess_file_Ok.
  apply preprocess_rowwise in Hpre as (f & i & _ & _ & _ & _ & ->).
  cbn [columns] in Hreq. symmetry. apply submseteq_length_Permutation.
  - apply NoDup_submseteq; [|exact Hreq].
    unfold required_cols.
    repeat (apply NoDup_cons_2;
            [rewrite ?not_elem_of_cons; repeat split; try discriminate;
             apply not_elem_of_nil|]).
    apply NoDup_nil_2.
  - unfold kept_columns. rewrite length_take.
    change (length required_cols) with 6%nat. lia.
Qed.

(** ** Stage 3: what [postprocess] leaves and what it writes *)

Lemma final_row_untouched est trk i c :
  c ∈ untouched_columns ->
  row_get final_columns (final_row est trk i) c = row_get output_columns (cells i) c.
Proof.
  unfold untouched_columns. rewrite !elem_of_cons, elem_of_nil.
  intros [-> | [-> | [-> | [-> | [-> | []]]]]]; unfold final_row;
    by destruct (is_Epic i).
Qed.

(** X16: [postprocess] keeps the rows of [dataframeprocess] in their
    number and order, and the type, epic name, epic link, summary and
    description of each. *)
Theorem postprocess_keeps_identity data fd est trk out :
  dataframeprocess data = Ok (fd, est, trk) ->
  postprocess fd est trk = Ok out ->
  length (rows out) = length (rows fd) /\
  forall k r r' c,
    rows fd !! k = Some r -> rows out !! k = Some r' ->
    c ∈ untouched_columns ->
    row_get (columns out) r' c = row_get (columns fd) r c.
Proof.
  intros (_ & st & _ & Hinv & -> & -> & ->)%dataframeprocess_Ok.
  rewrite postprocess_run by done. intros [= <-]. cbn [rows columns frame_of].
  split; [by rewrite !length_map|].
  intros k r r' c. rewrite !list_lookup_fmap.
  intros (i & Hi & ->)%fmap_Some (i' & Hi' & ->)%fmap_Some Hc.
  rewrite Hi in Hi'. injection Hi' as <-. by apply final_row_untouched.
Qed.

Lemma story_shape_expand link summary notes serv ios and :
  truthy link = true -> notna summary = true ->
  Forall story_shape (expand link summary notes serv ios and).
Proof.
  intros Hl Hs. pose proof (expand_stories link summary notes serv ios and) as H.
  unfold expand in *. apply Forall_fmap. apply Forall_fmap in H.
  eapply List.Forall_impl; [|exact H]. intros p (_ & _ & Hc) _. cbn in *.
  split; [done|]. split; [by exists link|]. by split.
Qed.

Lemma step_story_shape cols index row st st' :
  Forall story_shape (data_rows st) ->
  step cols index row st = Ok st' ->
  Forall story_shape (data_rows st').
Proof.
  intros Hst H1.
  apply step_Ok in H1 as [(name & _ & ->)|[(_ & Hsum & Hs)|(_ & _ & ->)]];
    [| |done].
  - cbn [epic_row data_rows]. apply Forall_app. split; [done|].
    apply Forall_singleton. intros Ht. discriminate Ht.
  - apply story_row_Ok in Hs as (Ht & _ & -> & _).
    apply Forall_app. split; [done|]. by apply story_shape_expand.
Qed.

Lemma iterrows_story_shape cols rs : forall index st st',
  Forall story_shape (data_rows st) ->
  iterrows cols index rs st = Ok st' ->
  Forall story_shape (data_rows st').
Proof.
  induction rs as [|row rs IH]; intros index st st' Hst; cbn [iterrows].
  - by intros [= <-].
  - intros (st1 & H1 & H)%bind_Ok.
    eapply IH; [|exact H]. by eapply step_story_shape.
Qed.

(** X17: a Story row of the finished table has an empty epic name, an
    epic link that is not empty, a summary, and one of the three
    component tags, the same in its three component columns. *)
Theorem story_rows_shape raw out r :
  preprocess_file raw = Ok out ->
  r ∈ rows out ->
  row_get (columns out) r "Issue Type" = str "Story" ->
  row_get (columns out) r "Epic Name" = str "" /\
  (exists link, row_get (columns out) r "Epic Link" = Some link /\
                truthy link = true) /\
  notna (row_get (columns out) r "Summary") = true /\
  exists c, c ∈ tags /\
    row_get (columns out) r "Components" = str c /\
    row_get (columns out) r "Components 1" = str c /\
    row_get (columns out) r "Components 2" = str c.
Proof.
  intros (data & st & _ & _ & Hit & _ & _ & ->)%preprocess_file_Ok.
  cbn [columns rows]. intros (i & -> & Hi)%list_elem_of_fmap.
  assert (Hshape : story_shape i).
  { eapply Forall_forall; [|exact Hi].
    eapply iterrows_story_shape; [|exact Hit]. apply Forall_nil_2. }
  destruct (final_row_cells (epic_estimates st) (epic_components_tracker st) i)
    as (Ht & Hn & Hl & _).
  rewrite Ht, Hn, Hl. intros Hstory.
  destruct (Hshape Hstory) as (Hname & Hlink & Hsum & c & Hc & Hcomp).
  assert (Hepic : is_Epic i = false).
  { unfold is_Epic. rewrite Hstory. done. }
  split; [done|]. split; [done|]. unfold final_row. rewrite Hepic.
  split; [exact Hsum|]. exists c. by repeat split.
Qed.

(** X18: every row of the finished table is an Epic row or a Story
    row, and its estimate is an integer; an Epic row has an epic name
    and an empty epic link. *)
Theorem output_rows_typed raw out r :
  preprocess_file raw = Ok out ->
  r ∈ rows out ->
  (exists z, row_get (columns out) r "Original Estimate" = int z) /\
  ((row_get (columns out) r "Issue Type" = str "Epic" /\
    is_Some (row_get (columns out) r "Epic Name") /\
    row_get (columns out) r "Epic Link" = str "") \/
   row_get (columns out) r "Issue Type" = str "Story").
Proof.
  intros (data & st & _ & _ & _ & Hinv & _ & ->)%preprocess_file_Ok.
  cbn [columns rows]. intros (i & -> & Hi)%list_elem_of_fmap.
  destruct (final_row_cells (epic_estimates st) (epic_components_tracker st) i)
    as (Ht & Hn & Hl & He & _).
  rewrite Ht, Hn, Hl, He. split; [by eexists|].
  pose proof (proj1 (Forall_forall _ _) (inv_emitted _ Hinv) i Hi) as Hem.
  destruct Hem; [left|right]; cbn; eauto.
Qed.

(** ** Whole days *)



End Pipeline.

(** * The pipeline on concrete exports *)

(** C2: the worked example.  After the first data row is dropped, the
    rows E1/s1, story1 with SERV=2 and IOS=1, and END give one Epic
    record for E1 with 86400 seconds and the iOS and Server flags set,
    then two Story records of 57600 and 28800 seconds with components
    Server and iOS. *)
Theorem worked_example :
  preprocess_file decimal example_input = Ok example_output.
Proof. reflexivity. Qed.

(** ** Where the specification and the code part *)


(** C3 as stated fails: the estimate is the seventh column, not the
    last, and the copies of the component are named "Components 1" and
    "Components 2". *)
Lemma spec_column_order_fails :
  exists out,
    preprocess_file decimal example_input = Ok out /\
    columns out <> spec_columns /\
    columns out !! 6%nat = Some "Original Estimate" /\
    last (columns out) = Some "Components 2".
Proof. exists example_output. split; [reflexivity|]. split; [discriminate|done]. Qed.


(** C8 as stated fails: the normalizer cuts the END row off, so that a
    normalized table with a first row put back has no sentinel and is
    refused. *)
Lemma rerun_without_sentinel_fails :
  preprocess example_input = Ok example_data /\
  preprocess {| columns := columns example_data;
                rows := dummy_row :: rows example_data |}
  = Err MissingSentinelError.
Proof. split; reflexivity. Qed.

(** ** The theorems at work on concrete exports *)


Lemma final_table_columns_witness :
  preprocess_file decimal example_input = Ok example_output /\
  columns example_output = final_columns /\
  length (columns example_output) = 9%nat /\
  Forall (fun r => length r = 9%nat) (rows example_output).
Proof.
  split; [reflexivity|].
  apply (final_table_columns decimal example_input). reflexivity.
Defined.


Lemma sentinel_handling_witness :
  rows example_input <> [] /\
  columns example_input <> [] /\
  (2 <= length (rows example_input))%nat /\
  "EPIC" ∈ columns (cleanup example_input) /\
  preprocess example_input = Ok example_data.
Proof.
  assert (H1 : rows example_input <> []) by discriminate.
  assert (H2 : columns example_input <> []) by discriminate.
  assert (H3 : (2 <= length (rows example_input))%nat) by (simpl; lia).
  assert (H4 : "EPIC" ∈ columns (cleanup example_input))
    by (vm_compute; apply list_elem_of_here).
  do 4 (split; [assumption|]).
  destruct (sentinel_handling decimal example_input H1 H2 H3 H4) as (_ & Hcut & _).
  apply (Hcut (rows example_data) END_row []).
  - reflexivity.
  - repeat constructor; discriminate.
  - reflexivity.
Defined.

Lemma orphan_story_aborts_witness :
  required_cols ⊆ columns orphan_data /\
  row_get (columns orphan_data) [NaN; str "story0"; NaN; NaN; str "abc"; NaN] "EPIC"
    = None /\
  dataframeprocess decimal orphan_data = Err (OrphanStoryError 0) /\
  preprocess_file decimal orphan_input = Err (OrphanStoryError 0).
Proof.
  assert (Hcols : required_cols ⊆ columns orphan_data) by (by vm_compute).
  split; [exact Hcols|]. split; [reflexivity|].
  destruct (orphan_story_aborts decimal orphan_data []
              [NaN; str "story0"; NaN; NaN; str "abc"; NaN] []
              Hcols eq_refl (List.Forall_nil _) eq_refl eq_refl)
    as (k & r & Hk & _ & _ & _ & _ & Hrun & Hfile).
  assert (k = 0%nat) as -> by (simpl in Hk; lia).
  split; [exact Hrun|]. apply Hfile. reflexivity.
Defined.


Lemma normalization_idempotent_witness :
  preprocess example_input = Ok example_data /\
  row_get (columns example_data) END_row "EPIC" = str "END" /\
  preprocess {| columns := columns example_data;
                rows := dummy_row :: rows example_data ++ [END_row] |}
  = Ok example_data.
Proof.
  split; [reflexivity|]. split; [reflexivity|].
  apply (normalization_idempotent example_input example_data dummy_row END_row);
    reflexivity.
Defined.



(** ** The further properties on the example exports *)

Lemma preprocess_output_witness :
  preprocess example_input = Ok example_data /\
  columns example_data = kept_columns (columns example_input) /\
  "EPIC" ∈ columns example_data /\
  (length (rows example_data) + 2 <= length (rows example_input))%nat.
Proof.
  split; [reflexivity|].
  destruct (preprocess_output example_input example_data eq_refl)
    as (Hcols & Hepic & Hlen & _).
  split; [exact Hcols|]. split; [exact Hepic|exact Hlen].
Defined.

Lemma preprocess_keeps_cells_witness :
  preprocess example_input = Ok example_data /\
  exists kept,
    kept `sublist_of` tail (rows example_input) /\
    Forall2 (fun r' r => forall c, c ∈ columns example_data ->
               row_get (columns example_data) r' c
               = row_get (columns example_input) r c)
      (rows example_data) kept.
Proof.
  split; [reflexivity|].
  apply (preprocess_keeps_cells example_input example_data). reflexivity.
Defined.

Lemma rows_after_END_ignored_witness :
  preprocess {| columns := raw_columns; rows := rows example_input |}
  = Ok example_data /\
  preprocess {| columns := raw_columns;
                rows := rows example_input
                        ++ [[str "E2"; str "late"; NaN; NaN; NaN; NaN; NaN; NaN; NaN]] |}
  = Ok example_data.
Proof.
  split; [reflexivity|].
  apply (rows_after_END_ignored raw_columns (rows example_input)
           [[str "E2"; str "late"; NaN; NaN; NaN; NaN; NaN; NaN; NaN]]
           example_data).
  reflexivity.
Defined.


Lemma flags_since_last_declaration_witness :
  dataframeprocess decimal example_data
  = Ok (frame_of example_records, example_estimates, example_tracker) /\
  exists f,
    example_tracker !! VStr "E1" = Some f /\
    forall c, c ∈ tags ->
      (flag_of c f = true <->
       Exists (fun i => story_of (VStr "E1") i /\ Components i = str c)
         (tail example_records)).
Proof.
  split; [reflexivity|].
  apply (flags_since_last_declaration decimal example_data example_records
           example_estimates example_tracker []
           (epic_record (VStr "E1") (str "s1") NaN) (tail example_records)
           (VStr "E1")).
  - reflexivity.
  - reflexivity.
  - split; reflexivity.
  - apply (bool_decide_unpack _). vm_compute. exact I.
Defined.

Lemma dictionary_keys_witness :
  dataframeprocess decimal example_data
  = Ok (frame_of example_records, example_estimates, example_tracker) /\
  (is_Some (example_estimates !! VStr "E1")
   <-> VStr "E1" ∈ epic_names example_records) /\
  (is_Some (example_tracker !! VStr "E1")
   <-> VStr "E1" ∈ epic_names example_records).
Proof.
  split; [reflexivity|].
  apply (dictionary_keys decimal example_data example_records example_estimates
           example_tracker (VStr "E1")).
  reflexivity.
Defined.

Lemma story_links_last_epic_witness :
  preprocess_file decimal example_input = Ok example_output /\
  exists link,
    row_get (columns example_output)
      [str "Story"; str ""; str "E1"; str "story1"; NaN; str "Server";
       int 57600; str "Server"; str "Server"] "Epic Link" = Some link /\
    last (epic_names_of (columns example_output) (take 1 (rows example_output)))
    = Some link.
Proof.
  split; [reflexivity|].
  apply (story_links_last_epic decimal example_input example_output 1
           [str "Story"; str ""; str "E1"; str "story1"; NaN; str "Server";
            int 57600; str "Server"; str "Server"]);
    reflexivity.
Defined.

Lemma record_count_witness :
  dataframeprocess decimal example_data
  = Ok (frame_of example_records, example_estimates, example_tracker) /\
  postprocess decimal (frame_of example_records) example_estimates example_tracker
  = Ok example_output /\
  length (rows example_output)
  = sum_list_with (emitted_count (columns example_data)) (rows example_data).
Proof.
  split; [reflexivity|]. split; [reflexivity|].
  apply (record_count decimal example_data (frame_of example_records)
           example_estimates example_tracker example_output);
    reflexivity.
Defined.

Lemma epic_records_in_order_witness :
  dataframeprocess decimal duplicate_epic_data
  = Ok (frame_of duplicate_epic_records, duplicate_epic_estimates,
        duplicate_epic_tracker) /\
  filter (fun i => Issue_Type i = str "Epic") duplicate_epic_records
  = epic_records_of (columns duplicate_epic_data) (rows duplicate_epic_data).
Proof.
  split; [reflexivity|].
  apply (epic_records_in_order decimal duplicate_epic_data duplicate_epic_records
           duplicate_epic_estimates duplicate_epic_tracker).
  reflexivity.
Defined.

Lemma rows_without_epic_and_summary_ignored_witness :
  dataframeprocess decimal notes_only_data
  = Ok (frame_of example_records, example_estimates, example_tracker) /\
  dataframeprocess decimal (work_rows notes_only_data)
  = Ok (frame_of example_records, example_estimates, example_tracker).
Proof.
  split; [reflexivity|].
  apply (rows_without_epic_and_summary_ignored decimal notes_only_data).
  reflexivity.
Defined.


Lemma failure_is_final_witness :
  dataframeprocess decimal {| columns := work_columns; rows := rows orphan_data |}
  = Err (OrphanStoryError 0) /\
  dataframeprocess decimal
    {| columns := work_columns; rows := rows orphan_data ++ rows example_data |}
  = Err (OrphanStoryError 0).
Proof.
  split; [reflexivity|].
  apply (failure_is_final decimal work_columns (rows orphan_data)
           (rows example_data) (OrphanStoryError 0)).
  reflexivity.
Defined.

Lemma earlier_records_kept_witness :
  dataframeprocess decimal
    {| columns := work_columns;
       rows := [[str "E1"; str "s1"; NaN; NaN; NaN; NaN]]
               ++ [[NaN; str "story1"; str "1"; NaN; str "2"; NaN]] |}
  = Ok (frame_of example_records, example_estimates, example_tracker) /\
  exists recs0 est0 trk0,
    dataframeprocess decimal
      {| columns := work_columns;
         rows := [[str "E1"; str "s1"; NaN; NaN; NaN; NaN]] |}
    = Ok (frame_of recs0, est0, trk0) /\
    recs0 `prefix_of` example_records.
Proof.
  split; [reflexivity|].
  apply (earlier_records_kept decimal work_columns
           [[str "E1"; str "s1"; NaN; NaN; NaN; NaN]]
           [[NaN; str "story1"; str "1"; NaN; str "2"; NaN]]
           example_records example_estimates example_tracker).
  reflexivity.
Defined.

Lemma accepted_columns_witness :
  preprocess_file decimal example_input = Ok example_output /\
  kept_columns (columns example_input) ≡ₚ required_cols.
Proof.
  split; [reflexivity|].
  apply (accepted_columns decimal example_input example_output). reflexivity.
Defined.

Lemma postprocess_keeps_identity_witness :
  dataframeprocess decimal example_data
  = Ok (frame_of example_records, example_estimates, example_tracker) /\
  postprocess decimal (frame_of example_records) example_estimates example_tracker
  = Ok example_output /\
  length (rows example_output) = length (rows (frame_of example_records)).
Proof.
  split; [reflexivity|]. split; [reflexivity|].
  apply (postprocess_keeps_identity decimal example_data (frame_of example_records)
           example_estimates example_tracker example_output);
    reflexivity.
Defined.

Lemma story_rows_shape_witness :
  preprocess_file decimal example_input = Ok example_output /\
  exists c, c ∈ tags /\
    row_get (columns example_output)
      [str "Story"; str ""; str "E1"; str "story1"; NaN; str "iOS";
       int 28800; str "iOS"; str "iOS"] "Components" = str c.
Proof.
  split; [reflexivity|].
  destruct (story_rows_shape decimal example_input example_output
              [str "Story"; str ""; str "E1"; str "story1"; NaN; str "iOS";
               int 28800; str "iOS"; str "iOS"]
              eq_refl (list_elem_of_lookup_2 (rows example_output) 2 _ eq_refl) eq_refl)
    as (_ & _ & _ & c & Hc & Hcomp & _).
  exists c. split; [exact Hc|exact Hcomp].
Defined.

Lemma output_rows_typed_witness :
  preprocess_file decimal example_input = Ok example_output /\
  exists z,
    row_get (columns example_output)
      [str "Epic"; str "E1"; str ""; str "s1"; NaN; str "";
       int 86400; str "iOS"; str "Server"] "Original Estimate" = int z.
Proof.
  split; [reflexivity|].
  destruct (output_rows_typed decimal example_input example_output
              [str "Epic"; str "E1"; str ""; str "s1"; NaN; str "";
               int 86400; str "iOS"; str "Server"]
              eq_refl (list_elem_of_lookup_2 (rows example_output) 0 _ eq_refl))
    as [Hz _].
  exact Hz.
Defined.

